(** * dawgmon: the diff engine, the anomaly printer and the driver [run]

    A shallow embedding of [dawgmon.py].  The three functions of the file,
    [compare_output], [print_anomalies] and [run], are translated one by one.
    The modules that [dawgmon.py] imports ([commands], [utils], [cache],
    [local]) are either taken as section variables (the probe registry, the
    collector) or modelled from the specification (the merge of the key
    lists, the snapshot store). *)

From Stdlib Require Import ZArith.
From stdpp Require Import base option list strings gmap pretty sorting.

Local Open Scope string_scope.
Local Open Scope list_scope.
Local Open Scope Z_scope.
Local Open Scope nat_scope.
Local Open Scope stdpp_scope.

(** ** Results and exceptions *)

(** The exceptions that can leave the three functions. [SystemExit] is what
    [sys.exit] raises, [EOFError] what [input] raises at end of input. *)
Inductive exn :=
  | KeyError (key : string)
  | Exception (msg : string)
  | TypeError (msg : string)
  | CacheError (location : string)
  | EOFError
  | SystemExit (code : Z).

Inductive result (A : Type) :=
  | Return (a : A)
  | Raise (e : exn).
Arguments Return {A} a.
Arguments Raise {A} e.

(** ** The [commands] module: anomalies *)

Module commands.

(** Modelled from the spec: the three anomaly kinds [commands.CHANGE],
    [commands.WARNING] and [commands.DEBUG] are constants of the [commands]
    module; the spec names them as the three kinds of an anomaly. *)
Inductive kind := CHANGE | WARNING | DEBUG.

#[global] Instance kind_eq_dec : EqDecision kind.
Proof. solve_decision. Defined.

(** An anomaly is the Python pair [(kind, message)]: [x[0]] is [fst] and
    [x[1]] is [snd]. *)
Definition anomaly : Type := kind * string.

(** Modelled from the spec: [commands.W], the constructor of WARNING
    anomalies, lives in the [commands] module. It pairs the WARNING kind
    with the message. *)
Definition W (s : string) : anomaly := (WARNING, s).

(** What a probe's [compare] may hand back: a list of anomalies, or an
    object of any other type (named by its type). *)
Inductive pyobj :=
  | PyList (items : list anomaly)
  | PyOther (type_name : string).

(** A probe, as [dawgmon.py] uses it: [cmd.name], [cmd.parse(raw)] and
    [cmd.compare(old_data, new_data)]. [StructuredT] is the type of the
    values [parse] produces. *)
Record Command (StructuredT : Type) := {
  name : string;
  parse : string → StructuredT;
  compare : StructuredT → StructuredT → pyobj
}.
Arguments name {StructuredT} _.
Arguments parse {StructuredT} _ _.
Arguments compare {StructuredT} _ _ _.

End commands.
Import commands.

(** ** Snapshots: Python dicts from probe name to raw output *)

(** A dict keeps its keys in insertion order and [merge_keys_to_list] depends
    on that order, so a snapshot is an association list. *)
Definition snapshot : Type := list (string * string).

Definition keys (d : snapshot) : list string := d.*1.

(** [d.get(k)]: the value of the first binding of [k]. *)
Fixpoint dict_get (d : snapshot) (k : string) : option string :=
  match d with
  | [] => None
  | (k', v) :: d' => if decide (k' = k) then Some v else dict_get d' k
  end.

(** [k in d] *)
Definition dict_in (k : string) (d : snapshot) : bool :=
  bool_decide (is_Some (dict_get d k)).

(** [d[k]], which raises [KeyError] for a missing key. *)
Definition dict_getitem (d : snapshot) (k : string) : result string :=
  match dict_get d k with
  | Some v => Return v
  | None => Raise (KeyError k)
  end.

(** A well-formed dict has every key once. *)
Definition dict_wf (d : snapshot) : Prop := NoDup (keys d).

(** ** The [utils] module *)

Module utils.

(** Modelled from the spec: [utils.merge_keys_to_list] is not part of
    [dawgmon.py]. The ordered task-name list is the union of the keys of
    [old] and [new] with no duplicates: all keys of [old] in their original
    order, followed by the keys present only in [new] in their original
    order. *)
Definition merge_keys_to_list (old new : snapshot) : list string :=
  keys old ++ filter (λ k, k ∉ keys old) (keys new).

End utils.
Import utils.

(** ** Calls made to the probes, and the monad that records them *)

Section diff_engine.

Context {StructuredT : Type}.

(** The probe registry [commands.COMMAND_CACHE], a dict from probe names
    to probes. *)
Variable COMMAND_CACHE : gmap string (Command StructuredT).

(** [str(cmd)], used in the message of the contract violation. *)
Variable cmd_str : Command StructuredT → string.

(** One invocation of a probe capability, tagged with the task being
    processed. *)
Inductive call :=
  | CallParse (task_name : string) (raw : string)
  | CallCompare (task_name : string) (old_data new_data : StructuredT).

Definition call_task (c : call) : string :=
  match c with
  | CallParse t _ => t
  | CallCompare t _ _ => t
  end.

(** A computation that logs the probe calls it makes and then returns or
    raises. *)
Definition Tr (A : Type) : Type := list call * result A.

Definition tr_ret {A} (a : A) : Tr A := ([], Return a).
Definition tr_raise {A} (e : exn) : Tr A := ([], Raise e).
Definition tr_bind {A B} (m : Tr A) (f : A → Tr B) : Tr B :=
  match m with
  | (log, Return a) => let '(log', r) := f a in (log ++ log', r)
  | (log, Raise e) => (log, Raise e)
  end.
Definition tr_lift {A} (r : result A) : Tr A := ([], r).

Definition calls {A} (m : Tr A) : list call := m.1.
Definition outcome {A} (m : Tr A) : result A := m.2.

Notation "'let!' x ':=' m 'in' k" := (tr_bind m (λ x, k))
  (at level 10, x name, m at level 100, k at level 200, only parsing).

(** [cmd.parse(raw)] and [cmd.compare(a, b)], logged. *)
Definition do_parse (task_name : string) (cmd : Command StructuredT)
    (raw : string) : Tr StructuredT :=
  ([CallParse task_name raw], Return (parse cmd raw)).

Definition do_compare (task_name : string) (cmd : Command StructuredT)
    (a b : StructuredT) : Tr pyobj :=
  ([CallCompare task_name a b], Return (compare cmd a b)).

(** Truth value of the optional [commandlist]: [None] and the empty list
    are both false. *)
Definition commandlist_truthy (commandlist : option (list string)) : bool :=
  match commandlist with
  | Some (_ :: _) => true
  | _ => false
  end.

Definition commandlist_items (commandlist : option (list string)) : list string :=
  default [] commandlist.

Definition unknown_command_msg (task_name : string) : string :=
  "unknown command with name " +:+ task_name
    +:+ " found (cache generated by older version?)".

(** ** [compare_output] *)

(** The body of the [for task_name in tasks] loop; its value is the
    variable [anomalies] at the end of the iteration. *)
Definition compare_task (old new : snapshot)
    (commandlist : option (list string))
    (anomalies : list anomaly) (task_name : string) : Tr (list anomaly) :=
  match COMMAND_CACHE !! task_name with
  | None =>
      (* if not cmd: anomalies.append(W(...)); continue *)
      tr_ret (anomalies ++ [W (unknown_command_msg task_name)])
  | Some cmd =>
      if commandlist_truthy commandlist
         && bool_decide (task_name ∉ commandlist_items commandlist)
      then tr_ret anomalies (* continue *)
      else
        let old_data := if dict_in task_name old
                        then default "" (dict_get old task_name) else "" in
        let! old_data := do_parse task_name cmd old_data in
        let! new_raw := tr_lift (dict_getitem new task_name) in
        let! new_data := do_parse task_name cmd new_raw in
        let! ret := do_compare task_name cmd old_data new_data in
        match ret with
        | PyOther _ =>
            (* if type(ret) != list: raise Exception(...) *)
            tr_raise (Exception ("unexpected return value type for "
                                   +:+ cmd_str cmd))
        | PyList [] =>
            (* if ret and len(ret) > 0 fails *)
            tr_ret anomalies
        | PyList items =>
            (* anomalies = anomalies + ret *)
            tr_ret (anomalies ++ items)
        end
  end.

(** The loop over [tasks], threading [anomalies]. *)
Fixpoint compare_loop (old new : snapshot)
    (commandlist : option (list string))
    (tasks : list string) (anomalies : list anomaly) : Tr (list anomaly) :=
  match tasks with
  | [] => tr_ret anomalies
  | task_name :: tasks' =>
      let! anomalies' := compare_task old new commandlist anomalies task_name in
      compare_loop old new commandlist tasks' anomalies'
  end.

(** [if not old: old = {}]: [None] and the empty dict both become [{}]. *)
Definition old_or_empty (old : option snapshot) : snapshot :=
  match old with
  | Some (b :: d) => b :: d
  | _ => []
  end.

Definition compare_output (old : option snapshot) (new : snapshot)
    (commandlist : option (list string)) : Tr (list anomaly) :=
  let anomalies := [] in
  let old := old_or_empty old in
  let tasks := merge_keys_to_list old new in
  compare_loop old new commandlist tasks anomalies.

End diff_engine.

(** ** [print_anomalies] *)

(** The escape character [\x1b] and the tab. *)
Definition ESC : string := String (Ascii.ascii_of_nat 27) "".
Definition TAB : string := String (Ascii.ascii_of_nat 9) "".

(** ["s" if n != 1 else ""] *)
Definition plural (n : nat) : string := if decide (n ≠ 1) then "s" else "".

(** [list(filter(lambda x: x[0] == k, anomalies))] *)
Definition of_kind (k : kind) (anomalies : list anomaly) : list anomaly :=
  filter (λ x, x.1 = k) anomalies.

(** The value of [print_anomalies] is the list of lines it prints, in the
    order of the [print] calls. *)
Definition print_anomalies (anomalies : list anomaly)
    (show_debug show_color : bool) : list string :=
  let changes := of_kind CHANGE anomalies in
  let warning := of_kind WARNING anomalies in
  let debug := if show_debug then of_kind DEBUG anomalies else [] in
  let c1 := if show_color then ESC +:+ "[32m" else "" in
  let c2 := if show_color then ESC +:+ "[31m" else "" in
  let c3 := if show_color then ESC +:+ "[36m" else "" in
  let c4 := if show_color then ESC +:+ "[34m" else "" in
  let c_end := if show_color then ESC +:+ "[0m" else "" in
  let la := length changes in
  let lw := length warning in
  let ld := length debug in
  let debugs := if decide (0 < ld)
                then " and " +:+ pretty ld +:+ " debug message" +:+ plural ld
                else "" in
  [c1 +:+ pretty la +:+ " change" +:+ plural la +:+ " detected ("
      +:+ pretty lw +:+ " warning" +:+ plural lw +:+ debugs +:+ ")" +:+ c_end]
  ++ ((λ w : anomaly, c2 +:+ "! " +:+ w.2 +:+ c_end) <$> warning)
  ++ ((λ c : anomaly, c3 +:+ "+ " +:+ c.2 +:+ c_end) <$> changes)
  ++ (if show_debug
      then (λ d : anomaly, c4 +:+ "- " +:+ d.2 +:+ c_end) <$> debug
      else []).

(** ** The [cache] module: the snapshot store *)

Module cache.

(** Modelled from the spec: the [cache] module is not part of
    [dawgmon.py]. A cache entry carries an integer id, a timestamp and the
    snapshot. *)
Record CacheEntry := {
  id : Z;
  timestamp : string;
  entry_snapshot : snapshot
}.

(** Modelled from the spec: what a backing location holds, a list of
    records or something that cannot be read as one. *)
Inductive file :=
  | Stored (records : list CacheEntry)
  | Corrupt.

(** Modelled from the spec: the in-memory store of [Cache(location)], the
    entries in append order, which is ascending id order. *)
Record Cache := {
  location : string;
  entries : list CacheEntry
}.

Definition new_cache (loc : string) : Cache :=
  {| location := loc; entries := [] |}.

(** Modelled from the spec: [load()] populates the store from the backing
    location; a missing location gives the empty store, a corrupt one is
    fatal. *)
Definition load (fs : gmap string file) (c : Cache) : result Cache :=
  match fs !! location c with
  | None => Return {| location := location c; entries := [] |}
  | Some (Stored l) => Return {| location := location c; entries := l |}
  | Some Corrupt => Raise (CacheError (location c))
  end.

(** Modelled from the spec: [entries()], the entries in ascending id
    order. *)
Definition get_entries (c : Cache) : list CacheEntry := entries c.

(** The entry with the greatest id among [l], if any. *)
Definition greatest (l : list CacheEntry) : option CacheEntry :=
  foldl (λ best e,
           match best with
           | Some b => if decide (id b < id e)%Z then Some e else Some b
           | None => Some e
           end) None l.

(** Modelled from the spec: [lastEntry()], the snapshot of the entry with
    the greatest id, or absent for the empty store. *)
Definition get_last_entry (c : Cache) : option snapshot :=
  entry_snapshot <$> greatest (entries c).

(** Modelled from the spec: [entry(id)], exact id lookup. *)
Definition get_entry (c : Cache) (i : Z) : option snapshot :=
  entry_snapshot <$> (snd <$> list_find (λ e, id e = i) (entries c)).

(** Modelled from the spec: [addEntry(snapshot)] assigns the greatest
    existing id plus one (or 1 for the empty store) and the current
    timestamp, and appends the entry. *)
Definition add_entry (now : string) (c : Cache) (s : snapshot) : Cache :=
  let next := match greatest (entries c) with
              | Some e => (id e + 1)%Z
              | None => 1%Z
              end in
  {| location := location c;
     entries := entries c ++
                [{| id := next; timestamp := now; entry_snapshot := s |}] |}.

(** Modelled from the spec: [purge(maxEntries)] retains only the
    [maxEntries] entries with the greatest ids; the entries are held in
    ascending id order, so these are the last [maxEntries] of them. *)
Definition purge (c : Cache) (max_entries : Z) : Cache :=
  let n := Z.to_nat max_entries in
  {| location := location c;
     entries := drop (length (entries c) - n) (entries c) |}.

(** Modelled from the spec: [save()] overwrites the backing location with
    the current entry list. *)
Definition save (fs : gmap string file) (c : Cache) : gmap string file :=
  <[location c := Stored (entries c)]> fs.

End cache.
Import cache.

(** ** [run] *)

(** The namespace [parser.parse_args()] returns. [compare_cache] is the pair
    [id1 id2] of option [-C], [commandlist] the names given with [-e]. *)
Record Args := {
  analyze : bool;
  compare_cache : option (Z * Z);
  list_commands : bool;
  list_cache : bool;
  show_debug : bool;
  commandlist : option (list string);
  force : bool;
  colorize : bool;
  cache_location : option string;
  max_cache_entries : Z
}.

(** What the process finds around it: [$HOME], the effective user id, the
    line typed at the prompt ([None] when standard input is at its end) and
    the clock. *)
Record Env := {
  HOME : option string;
  euid : Z;
  stdin_line : option string;
  now : string
}.

Section driver.

Context {StructuredT : Type}.

Variable COMMAND_CACHE : gmap string (Command StructuredT).
Variable cmd_str : Command StructuredT → string.

(** The list of built-in probes [commands.COMMANDS]. *)
Variable COMMANDS : list (Command StructuredT).

(** The collector [local.local_run]. *)
Variable local_run : string → list string → snapshot.

Variable env : Env.

(** The observable steps of a run, in the order they happen. *)
Inductive event :=
  | EvPrint (line : string)
  | EvInput (prompt : string)
  | EvLoad (location : string)
  | EvLocalRun (tmpdirname : string) (commandlist : list string)
  | EvAddEntry (s : snapshot)
  | EvProbe (c : @call StructuredT)
  | EvPurge (max_entries : Z)
  | EvSave (location : string) (records : list CacheEntry).

(** The state a run acts on: the backing locations and the log of its
    steps. *)
Record world := {
  w_fs : gmap string file;
  w_log : list event
}.

Definition IO (A : Type) : Type := world → world * result A.

Definition io_ret {A} (a : A) : IO A := λ w, (w, Return a).
Definition io_raise {A} (e : exn) : IO A := λ w, (w, Raise e).
Definition io_bind {A B} (m : IO A) (f : A → IO B) : IO B :=
  λ w, match m w with
       | (w', Return a) => f a w'
       | (w', Raise e) => (w', Raise e)
       end.

Notation "'do!' x ':=' m 'in' k" := (io_bind m (λ x, k))
  (at level 10, x name, m at level 100, k at level 200, only parsing).
Notation "m ';;;' k" := (io_bind m (λ _, k))
  (at level 100, k at level 200, right associativity, only parsing).

Definition emit (e : event) : IO () :=
  λ w, ({| w_fs := w_fs w; w_log := w_log w ++ [e] |}, Return ()).

Definition emit_all (es : list event) : IO () :=
  λ w, ({| w_fs := w_fs w; w_log := w_log w ++ es |}, Return ()).

Definition print (line : string) : IO () := emit (EvPrint line).

(** [input(prompt)]: the prompt is written, then a line is read; at end of
    input [EOFError] is raised. *)
Definition input (prompt : string) : IO string :=
  emit (EvInput prompt) ;;;
  match stdin_line env with
  | Some line => io_ret line
  | None => io_raise EOFError
  end.

(** [sys.exit(code)] *)
Definition sys_exit {A} (code : Z) : IO A := io_raise (SystemExit code).

(** A call of [compare_output] inside the run: its probe calls go to the
    log, its exception propagates. *)
Definition io_compare_output (old : option snapshot) (new : snapshot)
    (commandlist : option (list string)) : IO (list anomaly) :=
  let r := compare_output COMMAND_CACHE cmd_str old new commandlist in
  emit_all (EvProbe <$> calls r) ;;; (λ w, (w, outcome r)).

(** [cache.load()], [cache.purge(n)] and [cache.save()] as steps. *)
Definition io_load (c : Cache) : IO Cache :=
  emit (EvLoad (location c)) ;;; (λ w, (w, load (w_fs w) c)).

Definition io_purge (c : Cache) (max_entries : Z) : IO Cache :=
  emit (EvPurge max_entries) ;;; io_ret (purge c max_entries).

Definition io_save (c : Cache) : IO () :=
  λ w, ({| w_fs := save (w_fs w) c;
           w_log := w_log w ++ [EvSave (location c) (entries c)] |},
        Return ()).

(** [os.path.join(home, name)] for a relative [name]. *)
Definition path_join (home name : string) : string :=
  if decide (home = "") then name
  else if decide (last (String.list_ascii_of_string home) = Some (Ascii.ascii_of_nat 47))
       then home +:+ name
  else home +:+ "/" +:+ name.

(** ["{:4d}".format(n)]: right-aligned in four columns. *)
Definition format_4d (n : Z) : string :=
  let s := pretty n in
  String.concat "" (replicate (4 - String.length s) " ") +:+ s.

Definition string_le (a b : string) : Prop := String.leb a b = true.

#[local] Instance string_le_dec a b : Decision (string_le a b).
Proof. unfold string_le. apply _. Defined.

(** Truth value of a string option: [None] and [""] are false. *)
Definition str_truthy (s : option string) : bool :=
  match s with
  | Some s => bool_decide (s ≠ "")
  | None => false
  end.

(** Truth value of a snapshot option: [None] and [{}] are false. *)
Definition snapshot_truthy (s : option snapshot) : bool :=
  match s with
  | Some (_ :: _) => true
  | _ => false
  end.

(** Lines 85 and 86: the location given with [-l], or [.dawgmon.db]
    under [$HOME]; [os.path.join] raises when [$HOME] is unset. *)
Definition resolve_cache_location (args : Args)
    (default_cache_name : string) : result string :=
  if negb (str_truthy (cache_location args))
  then match HOME env with
       | Some home => Return (path_join home default_cache_name)
       | None => Raise (TypeError "expected str, bytes or os.PathLike object, not NoneType")
       end
  else Return (default "" (cache_location args)).

(** Lines 149 to 159: merge and print the anomalies, then update the
    cache. *)
Definition diff_and_update (args : Args) (cache : Cache)
    (anomalies : list anomaly) (old : option snapshot) (new : snapshot)
    (commandlist : list string) : IO () :=
  do! diff := io_compare_output old new (Some commandlist) in
  let anomalies := anomalies ++ diff in
  emit_all (EvPrint <$>
              print_anomalies anomalies (show_debug args) (colorize args)) ;;;
  do! cache := io_purge cache (max_cache_entries args) in
  io_save cache.

Definition run (tmpdirname : string) (args : Args) : IO () :=
  let default_max_cache_entries := 16%Z in
  let default_cache_name := ".dawgmon.db" in
  if bool_decide (max_cache_entries args < 1)%Z
     || bool_decide (max_cache_entries args > 1024)%Z
  then
    print "maximum number of cache entries invalid or set too high [1-1024]" ;;;
    sys_exit 1
  else
  do! cache_location :=
    (λ w, (w, resolve_cache_location args default_cache_name)) in
  if negb (list_cache args) && negb (list_commands args)
     && negb (analyze args) && negb (bool_decide (is_Some (compare_cache args)))
  then print "select an action -A/C/E/L" (* return *)
  else
  do! go_on :=
    (if negb (force args) && bool_decide (euid env ≠ 0%Z) && analyze args
     then
       print "It's strongly recommended to run an analysis as root." ;;;
       do! answer := input "Continue anyway with the analysis y/n? " in
       io_ret (bool_decide (answer = "y" ∨ answer = "Y"))
     else io_ret true) in
  if negb go_on then io_ret () (* return *)
  else
  (* load last entry from cache *)
  do! cache := io_load (new_cache cache_location) in
  if list_cache args then
    let entries := get_entries cache in
    print ("  ID" +:+ TAB +:+ "TIMESTAMP") ;;;
    emit_all ((λ entry, EvPrint (format_4d (id entry) +:+ TAB
                                   +:+ timestamp entry)) <$> entries)
  else if list_commands args then
    let cmd_list := merge_sort string_le (map_to_list COMMAND_CACHE).*1 in
    emit_all (EvPrint <$> cmd_list)
  else
  (* only add results to cache if a full analysis was run *)
  let add_to_cache := negb (commandlist_truthy (commandlist args))
                      && analyze args in
  let commandlist := if negb (commandlist_truthy (commandlist args))
                     then name <$> COMMANDS
                     else commandlist_items (commandlist args) in
  let anomalies := [] in
  if analyze args then
    emit (EvLocalRun tmpdirname commandlist) ;;;
    let new := local_run tmpdirname commandlist in
    let old := get_last_entry cache in
    if add_to_cache then
      let anomalies :=
        if negb (snapshot_truthy old)
        then anomalies ++ [W "no cache entry found yet so caching baseline"]
        else anomalies in
      emit (EvAddEntry new) ;;;
      let cache := add_entry (now env) cache new in
      diff_and_update args cache anomalies old new commandlist
    else
      let anomalies :=
        anomalies ++ [W "results NOT cached as only partial command list being run"] in
      diff_and_update args cache anomalies old new commandlist
  else
    match compare_cache args with
    | None => io_raise (TypeError "'NoneType' object is not subscriptable")
    | Some (id1, id2) =>
        let new := get_entry cache id2 in
        if negb (snapshot_truthy new) then
          print ("cannot find cache entry with id " +:+ pretty id2) (* return *)
        else
        let old := get_entry cache id1 in
        if negb (snapshot_truthy old) then
          print ("cannot find cache entry with id " +:+ pretty id1) (* return *)
        else
        diff_and_update args cache anomalies old (default [] new) commandlist
    end.

(** A run from a file system [fs] with an empty log. *)
Definition start (fs : gmap string file) : world :=
  {| w_fs := fs; w_log := [] |}.

End driver.

(** ** A small registry to run the functions on *)

Module fixtures.

Definition NL : string := String (Ascii.ascii_of_nat 10) "".

(** Split a raw capture into its lines. *)
Fixpoint lines_go (s : string) (cur : string) : list string :=
  match s with
  | EmptyString => if decide (cur = "") then [] else [cur]
  | String c s' =>
      if decide (c = Ascii.ascii_of_nat 10)
      then cur :: lines_go s' ""
      else lines_go s' (cur +:+ String c "")
  end.
Definition lines (s : string) : list string := lines_go s "".

(** A probe that reports one CHANGE per line that is new. *)
Definition users : Command (list string) := {|
  name := "users";
  parse := lines;
  compare := λ a b,
    PyList ((λ l, (CHANGE, "user " +:+ l +:+ " added"))
              <$> filter (λ l, l ∉ a) b)
|}.

(** A probe that reports its two line counts as one DEBUG message. *)
Definition mounts : Command (list string) := {|
  name := "mounts";
  parse := lines;
  compare := λ a b,
    PyList [(DEBUG, pretty (length a) +:+ " -> " +:+ pretty (length b))]
|}.

(** A broken probe: its [compare] returns [None]. *)
Definition broken : Command (list string) := {|
  name := "broken";
  parse := lines;
  compare := λ _ _, PyOther "NoneType"
|}.

Definition COMMANDS : list (Command (list string)) := [users; mounts; broken].

Definition COMMAND_CACHE : gmap string (Command (list string)) :=
  list_to_map ((λ c, (name c, c)) <$> COMMANDS).

Definition cmd_str (c : Command (list string)) : string :=
  "<" +:+ name c +:+ ">".

Definition env : Env :=
  {| HOME := Some "/root"; euid := 0; stdin_line := Some "y"; now := "t2" |}.

Definition local_run (tmpdirname : string) (cl : list string) : snapshot :=
  (λ n, (n, "alice" +:+ NL +:+ "bob")) <$> cl.

Definition entry1 : CacheEntry :=
  {| id := 1; timestamp := "t0"; entry_snapshot := [("users", "alice")] |}.
Definition entry2 : CacheEntry :=
  {| id := 2; timestamp := "t1";
     entry_snapshot := [("users", "alice" +:+ NL +:+ "bob")] |}.
Definition entry3 : CacheEntry :=
  {| id := 3; timestamp := "t2";
     entry_snapshot := [("users", "carol"); ("mounts", "/")] |}.

Definition loc : string := "/root/.dawgmon.db".

Definition fs : gmap string file :=
  {[ loc := Stored [entry1; entry2; entry3] ]}.

(** The store of [fs] once loaded. *)
Definition loaded : Cache :=
  {| location := loc; entries := [entry1; entry2; entry3] |}.

(** A store whose only entry, with id 2, holds the empty snapshot. *)
Definition entry_empty : CacheEntry :=
  {| id := 2; timestamp := "t1"; entry_snapshot := [] |}.

Definition fs_empty_entry : gmap string file :=
  {[ loc := Stored [entry_empty] ]}.

Definition args_compare (id1 id2 m : Z) : Args := {|
  analyze := false; compare_cache := Some (id1, id2);
  list_commands := false; list_cache := false; show_debug := false;
  commandlist := None; force := false; colorize := false;
  cache_location := None; max_cache_entries := m
|}.

Definition args_analyze (cl : option (list string)) (m : Z) : Args := {|
  analyze := true; compare_cache := None;
  list_commands := false; list_cache := false; show_debug := true;
  commandlist := cl; force := false; colorize := false;
  cache_location := None; max_cache_entries := m
|}.

Definition run_fix (args : Args) (fs : gmap string file) :=
  run COMMAND_CACHE cmd_str COMMANDS local_run env "/tmp/x" args (start fs).

End fixtures.


(** * Properties of the diff engine *)

Section diff_engine_facts.

Context {StructuredT : Type}.
Context (COMMAND_CACHE : gmap string (Command StructuredT)).
Context (cmd_str : Command StructuredT → string).

Local Abbreviation call := (@call StructuredT).
Local Abbreviation compare_task := (compare_task COMMAND_CACHE cmd_str).
Local Abbreviation compare_loop := (compare_loop COMMAND_CACHE cmd_str).
Local Abbreviation compare_output := (compare_output COMMAND_CACHE cmd_str).

Implicit Types (old new : snapshot) (cl : option (list string)).
Implicit Types (acc : list anomaly) (tasks : list string).

(** ** The logging monad *)

Definition result_map {A B} (f : A → B) (r : result A) : result B :=
  match r with
  | Return a => Return (f a)
  | Raise e => Raise e
  end.

Lemma tr_bind_ret_l {A B} (a : A) (f : A → Tr (StructuredT := StructuredT) B) :
  tr_bind (tr_ret a) f = f a.
Proof. unfold tr_bind, tr_ret. by destruct (f a). Qed.

Lemma tr_bind_assoc {A B C} (m : Tr (StructuredT := StructuredT) A)
    (f : A → Tr B) (g : B → Tr C) :
  tr_bind (tr_bind m f) g = tr_bind m (λ a, tr_bind (f a) g).
Proof.
  destruct m as [log [a|e]]; simpl; [|done].
  destruct (f a) as [log' [b|e]]; simpl; [|done].
  destruct (g b) as [log'' r]. by rewrite (assoc_L (++)).
Qed.

Lemma tr_bind_ext {A B} (m : Tr (StructuredT := StructuredT) A)
    (f g : A → Tr B) :
  (∀ a, f a = g a) → tr_bind m f = tr_bind m g.
Proof. intros Hfg. destruct m as [log [a|e]]; simpl; by rewrite ?Hfg. Qed.

(** ** What one task contributes *)

(** The filter test of line 24. *)
Definition excluded cl (task_name : string) : bool :=
  commandlist_truthy cl && bool_decide (task_name ∉ commandlist_items cl).

(** The raw old value of a task: [old[name]] when [name] is a key of [old],
    the empty string otherwise. *)
Definition old_raw old (task_name : string) : string :=
  default "" (dict_get old task_name).

(** The probe calls a task gives rise to. *)
Definition task_calls old new cl (task_name : string) : list call :=
  match COMMAND_CACHE !! task_name with
  | None => []
  | Some cmd =>
      if excluded cl task_name then []
      else
        CallParse task_name (old_raw old task_name) ::
        match dict_get new task_name with
        | None => []
        | Some new_raw =>
            [CallParse task_name new_raw;
             CallCompare task_name (parse cmd (old_raw old task_name))
                                   (parse cmd new_raw)]
        end
  end.

(** The anomalies a task adds to the aggregate, or the exception it ends
    the comparison with. *)
Definition task_anomalies old new cl (task_name : string)
    : result (list anomaly) :=
  match COMMAND_CACHE !! task_name with
  | None => Return [W (unknown_command_msg task_name)]
  | Some cmd =>
      if excluded cl task_name then Return []
      else
        match dict_get new task_name with
        | None => Raise (KeyError task_name)
        | Some new_raw =>
            match compare cmd (parse cmd (old_raw old task_name))
                              (parse cmd new_raw) with
            | PyList items => Return items
            | PyOther _ =>
                Raise (Exception ("unexpected return value type for "
                                    +:+ cmd_str cmd))
            end
        end
  end.

(** Concatenation of the contributions up to the first exception. *)
Fixpoint concat_results (rs : list (result (list anomaly)))
    : result (list anomaly) :=
  match rs with
  | [] => Return []
  | Return items :: rs' => result_map (app items) (concat_results rs')
  | Raise e :: _ => Raise e
  end.

(** The calls of the tasks up to and including the first one that
    raises. *)
Fixpoint calls_until_raise old new cl tasks : list call :=
  match tasks with
  | [] => []
  | t :: tasks' =>
      task_calls old new cl t ++
      match task_anomalies old new cl t with
      | Return _ => calls_until_raise old new cl tasks'
      | Raise _ => []
      end
  end.

Lemma old_raw_get old t :
  (if dict_in t old then default "" (dict_get old t) else "") = old_raw old t.
Proof.
  unfold dict_in, old_raw. case_bool_decide as H; [done|].
  destruct (dict_get old t); [|done]. destruct H; eauto.
Qed.

(** The loop body, in closed form. *)
Lemma compare_task_spec old new cl acc t :
  compare_task old new cl acc t
  = (task_calls old new cl t,
     result_map (app acc) (task_anomalies old new cl t)).
Proof.
  unfold compare_task, task_calls, task_anomalies.
  destruct (COMMAND_CACHE !! t) as [cmd|]; [|done].
  fold (excluded cl t). destruct (excluded cl t).
  { unfold tr_ret. simpl. by rewrite (right_id_L [] (++)). }
  rewrite old_raw_get. unfold dict_getitem.
  destruct (dict_get new t) as [new_raw|]; [|done].
  simpl. destruct (compare cmd _ _) as [[|i items]|ty]; simpl; try done.
  by rewrite (right_id_L [] (++)).
Qed.

Lemma result_map_app_concat acc items r :
  result_map (app (acc ++ items)) r
  = result_map (app acc) (result_map (app items) r).
Proof. destruct r; simpl; [|done]. by rewrite (assoc_L (++)). Qed.

(** The loop, in closed form. *)
Lemma compare_loop_spec old new cl tasks acc :
  compare_loop old new cl tasks acc
  = (calls_until_raise old new cl tasks,
     result_map (app acc)
       (concat_results (task_anomalies old new cl <$> tasks))).
Proof.
  revert acc. induction tasks as [|t tasks IH]; intros acc; simpl.
  { unfold tr_ret. by rewrite (right_id_L [] (++)). }
  rewrite compare_task_spec.
  destruct (task_anomalies old new cl t) as [items|e]; simpl.
  - rewrite IH. simpl. by rewrite result_map_app_concat.
  - by rewrite (right_id_L [] (++)).
Qed.

Lemma compare_loop_app old new cl tasks1 tasks2 acc :
  compare_loop old new cl (tasks1 ++ tasks2) acc
  = tr_bind (compare_loop old new cl tasks1 acc)
            (compare_loop old new cl tasks2).
Proof.
  revert acc. induction tasks1 as [|t tasks1 IH]; intros acc.
  { symmetry. apply tr_bind_ret_l. }
  cbn [app compare_loop]. rewrite tr_bind_assoc.
  destruct (compare_task old new cl acc t) as [log [acc'|e]]; [|done].
  cbn [tr_bind]. by rewrite IH.
Qed.

(** ** Where a call comes from *)

Lemma task_calls_inv old new cl t c :
  c ∈ task_calls old new cl t →
  call_task c = t ∧ excluded cl t = false ∧ is_Some (COMMAND_CACHE !! t).
Proof.
  unfold task_calls. destruct (COMMAND_CACHE !! t) as [cmd|] eqn:Hcmd.
  2:{ intros H. by apply elem_of_nil in H. }
  destruct (excluded cl t) eqn:Hex.
  { intros H. by apply elem_of_nil in H. }
  intros H. split_and!; [|done|by eexists].
  apply elem_of_cons in H as [->|H]; [done|].
  destruct (dict_get new t); [|by apply elem_of_nil in H].
  apply elem_of_cons in H as [->|H]; [done|].
  apply list_elem_of_singleton in H as ->. done.
Qed.

Lemma calls_until_raise_inv old new cl tasks c :
  c ∈ calls_until_raise old new cl tasks →
  ∃ t, t ∈ tasks ∧ c ∈ task_calls old new cl t.
Proof.
  induction tasks as [|t tasks IH]; cbn [calls_until_raise].
  { intros H. by apply elem_of_nil in H. }
  intros [H|H]%elem_of_app.
  - exists t. split; [left|done].
  - destruct (task_anomalies old new cl t); [|by apply elem_of_nil in H].
    destruct (IH H) as (t' & Ht' & Hc). exists t'. split; [by right|done].
Qed.

Lemma calls_until_raise_prefix old new cl tasks :
  calls_until_raise old new cl tasks
    `prefix_of` flat_map (task_calls old new cl) tasks.
Proof.
  induction tasks as [|t tasks IH]; cbn [calls_until_raise flat_map]; [done|].
  apply prefix_app. destruct (task_anomalies old new cl t); [done|].
  apply prefix_nil.
Qed.

Lemma calls_until_raise_all old new cl tasks items :
  concat_results (task_anomalies old new cl <$> tasks) = Return items →
  calls_until_raise old new cl tasks = flat_map (task_calls old new cl) tasks.
Proof.
  revert items. induction tasks as [|t tasks IH]; intros items; [done|].
  cbn [calls_until_raise flat_map fmap list_fmap concat_results].
  destruct (task_anomalies old new cl t) as [its|e]; [|done].
  destruct (concat_results _) as [rest|e] eqn:Hrest; [|done].
  intros _. f_equal. by eapply IH.
Qed.

Lemma compare_output_spec (old : option snapshot) new cl :
  compare_output old new cl
  = (calls_until_raise (old_or_empty old) new cl
       (merge_keys_to_list (old_or_empty old) new),
     concat_results (task_anomalies (old_or_empty old) new cl
                       <$> merge_keys_to_list (old_or_empty old) new)).
Proof.
  unfold compare_output. rewrite compare_loop_spec. f_equal.
  by destruct (concat_results _).
Qed.

Lemma excluded_true f t :
  f ≠ [] → t ∉ f → excluded (Some f) t = true.
Proof.
  intros Hf Ht. unfold excluded. destruct f as [|x f]; [done|].
  cbn. by rewrite bool_decide_eq_true.
Qed.

(** A message mentions a name when the name occurs in it. *)
Definition mentions (task_name msg : string) : Prop :=
  ∃ before after, msg = before +:+ task_name +:+ after.

Lemma unknown_command_msg_mentions t : mentions t (unknown_command_msg t).
Proof. by eexists _, _. Qed.

Lemma concat_results_all old new cl tasks (items_of : string → list anomaly) :
  (∀ t, t ∈ tasks → task_anomalies old new cl t = Return (items_of t)) →
  concat_results (task_anomalies old new cl <$> tasks)
  = Return (concat (items_of <$> tasks)).
Proof.
  induction tasks as [|t tasks IH]; intros Hall; [done|].
  cbn [fmap list_fmap concat_results concat].
  rewrite (Hall t) by left. change (list_fmap _ _ ?f ?l) with (f <$> l).
  rewrite IH; [done|]. intros t' Ht'. apply Hall. by right.
Qed.

Lemma merge_keys_NoDup old new :
  dict_wf old → dict_wf new → NoDup (merge_keys_to_list old new).
Proof.
  unfold dict_wf, merge_keys_to_list. intros Ho Hn.
  apply NoDup_app. split_and!; [done| |by apply NoDup_filter].
  intros k Hk [Hk' _]%list_elem_of_filter. done.
Qed.

Lemma merge_keys_elem old new k :
  k ∈ merge_keys_to_list old new ↔ k ∈ keys old ∨ k ∈ keys new.
Proof.
  unfold merge_keys_to_list. rewrite elem_of_app, list_elem_of_filter.
  destruct (decide (k ∈ keys old)); tauto.
Qed.

Lemma compare_violation_aborts old new cl tasks t a b cmd ty :
  CallCompare t a b ∈ calls_until_raise old new cl tasks →
  COMMAND_CACHE !! t = Some cmd →
  compare cmd a b = PyOther ty →
  concat_results (task_anomalies old new cl <$> tasks)
  = Raise (Exception ("unexpected return value type for " +:+ cmd_str cmd))
  ∧ last (calls_until_raise old new cl tasks) = Some (CallCompare t a b).
Proof.
  intros Hin Hcmd Hret.
  induction tasks as [|t' tasks IH]; [by apply elem_of_nil in Hin|].
  cbn [calls_until_raise fmap list_fmap concat_results] in *.
  apply elem_of_app in Hin as [Hin|Hin].
  - clear IH. unfold task_calls, task_anomalies in *.
    destruct (COMMAND_CACHE !! t') as [cmd'|] eqn:Hcmd';
      [|by apply elem_of_nil in Hin].
    destruct (excluded cl t'); [by apply elem_of_nil in Hin|].
    apply elem_of_cons in Hin as [?|Hin]; [done|].
    destruct (dict_get new t') as [new_raw|];
      [|by apply elem_of_nil in Hin].
    apply elem_of_cons in Hin as [?|Hin]; [done|].
    apply list_elem_of_singleton in Hin. simplify_eq. rewrite Hret.
    split; [done|]. by rewrite (right_id_L [] (++)).
  - destruct (task_anomalies old new cl t') as [items|e];
      [|by apply elem_of_nil in Hin].
    destruct (IH Hin) as [-> Hlast]. split; [done|].
    rewrite last_app. by rewrite Hlast.
Qed.

(** ** The claims about [compare_output] *)

(** C1, as amended: with a non-empty filter, a task name that is not in the
    filter never has its [parse] or [compare] invoked; when it is
    registered it adds no anomaly and the comparison runs exactly as if the
    name were not in the task list. The registry lookup comes before the
    filter test, so a name that is absent from the registry still adds its
    WARNING although the filter leaves it out. *)
Theorem filter_skips_registered_task (old : option snapshot) new
    (filter_names : list string) pre task_name post :
  filter_names ≠ [] →
  task_name ∉ filter_names →
  merge_keys_to_list (old_or_empty old) new = pre ++ task_name :: post →
  let o := old_or_empty old in
  let cl := Some filter_names in
  (∀ c, c ∈ calls (compare_output old new cl) → call_task c ≠ task_name)
  ∧ (is_Some (COMMAND_CACHE !! task_name) →
       task_anomalies o new cl task_name = Return []
       ∧ compare_output old new cl = compare_loop o new cl (pre ++ post) [])
  ∧ (COMMAND_CACHE !! task_name = None →
       compare_output old new cl
       = tr_bind (compare_loop o new cl pre [])
           (λ acc, compare_loop o new cl post
                     (acc ++ [W (unknown_command_msg task_name)]))).
Proof.
  intros Hne Hnotin Htasks o cl.
  pose proof (excluded_true _ _ Hne Hnotin) as Hex.
  split_and!.
  - intros c Hc Heq. rewrite compare_output_spec in Hc.
    apply calls_until_raise_inv in Hc as (t & _ & Hc).
    apply task_calls_inv in Hc as (Ht & Hex' & _).
    rewrite Heq in Ht. subst t. fold cl in Hex. congruence.
  - intros [cmd Hcmd]. split.
    + unfold task_anomalies. rewrite Hcmd. subst cl. by rewrite Hex.
    + unfold compare_output. rewrite Htasks, !compare_loop_app.
      apply tr_bind_ext. intros acc. cbn [compare_loop].
      unfold compare_task. rewrite Hcmd. fold (excluded cl task_name).
      subst cl. rewrite Hex. by rewrite tr_bind_ret_l.
  - intros Hcmd. unfold compare_output.
    rewrite Htasks, compare_loop_app. apply tr_bind_ext. intros acc.
    cbn [compare_loop]. unfold compare_task. rewrite Hcmd.
    by rewrite tr_bind_ret_l.
Qed.

(** C2: a task name of the merged list that is absent from the registry
    adds exactly one anomaly, a WARNING whose message mentions the name;
    neither [parse] nor [compare] is invoked for it, and the loop goes on
    with the remaining names. When it is the only task (as for old =
    {"foo": "x"}, new = {"foo": "x"}) the result is that single WARNING. *)
Theorem unknown_task_one_warning (old : option snapshot) new cl
    pre task_name post :
  COMMAND_CACHE !! task_name = None →
  merge_keys_to_list (old_or_empty old) new = pre ++ task_name :: post →
  let o := old_or_empty old in
  let w := W (unknown_command_msg task_name) in
  w.1 = WARNING
  ∧ mentions task_name w.2
  ∧ task_anomalies o new cl task_name = Return [w]
  ∧ (∀ c, c ∈ calls (compare_output old new cl) → call_task c ≠ task_name)
  ∧ compare_output old new cl
    = tr_bind (compare_loop o new cl pre [])
        (λ acc, compare_loop o new cl post (acc ++ [w]))
  ∧ (pre = [] → post = [] → compare_output old new cl = ([], Return [w])).
Proof.
  intros Hcmd Htasks o w.
  assert (compare_output old new cl
          = tr_bind (compare_loop o new cl pre [])
              (λ acc, compare_loop o new cl post (acc ++ [w]))) as Hrun.
  { unfold compare_output. rewrite Htasks, compare_loop_app.
    apply tr_bind_ext. intros acc. cbn [compare_loop].
    unfold compare_task. rewrite Hcmd. by rewrite tr_bind_ret_l. }
  split_and!; [done|apply unknown_command_msg_mentions| | |done|].
  - unfold task_anomalies. by rewrite Hcmd.
  - intros c Hc Heq. rewrite compare_output_spec in Hc.
    apply calls_until_raise_inv in Hc as (t & _ & Hc).
    apply task_calls_inv in Hc as (Ht & _ & [cmd Hsome]).
    rewrite Heq in Ht. subst t. congruence.
  - intros -> ->. by rewrite Hrun.
Qed.

Lemma merge_keys_empty_old new : merge_keys_to_list [] new = keys new.
Proof.
  unfold merge_keys_to_list. cbn [keys fmap list_fmap app].
  induction (keys new) as [|k ks IH]; [done|].
  rewrite filter_cons_True by apply not_elem_of_nil. by rewrite IH.
Qed.

(** C3: an absent old snapshot gives the same calls and the same outcome as
    the empty old snapshot: in both cases the tasks are the keys of [new] in
    their order and every old raw value is the empty string. *)
Theorem compare_output_absent_is_empty new cl :
  compare_output None new cl = compare_output (Some []) new cl
  ∧ compare_output None new cl = compare_loop [] new cl (keys new) []
  ∧ ∀ t, old_raw (old_or_empty None) t = "".
Proof.
  split_and!; [done| |done].
  unfold compare_output. cbn [old_or_empty]. by rewrite merge_keys_empty_old.
Qed.

(** C4: when a [compare] that the comparison invokes returns something that
    is not a list, the comparison raises the contract violation at once:
    that call is the last one made and no anomaly list is returned. *)
Theorem compare_not_list_aborts (old : option snapshot) new cl
    task_name a b cmd ty :
  CallCompare task_name a b ∈ calls (compare_output old new cl) →
  COMMAND_CACHE !! task_name = Some cmd →
  compare cmd a b = PyOther ty →
  outcome (compare_output old new cl)
  = Raise (Exception ("unexpected return value type for " +:+ cmd_str cmd))
  ∧ last (calls (compare_output old new cl))
    = Some (CallCompare task_name a b)
  ∧ ∀ items, outcome (compare_output old new cl) ≠ Return items.
Proof.
  rewrite compare_output_spec. intros Hin Hcmd Hret.
  destruct (compare_violation_aborts _ _ _ _ _ _ _ _ _ Hin Hcmd Hret)
    as [Hout Hlast].
  unfold outcome, calls. cbn [fst snd]. rewrite Hout. done.
Qed.

(** C5: for a task that is registered and passes the filter, the old raw
    value is [old[name]] when [name] is a key of [old] and the empty string
    otherwise; [parse] is applied to the old raw value and to [new[name]],
    and [compare] to the two parsed values, in that order. A name missing
    from [new] raises [KeyError] after the old value was parsed. Over the
    whole comparison the calls made are those of the tasks in task order,
    up to the first task that raises. *)
Theorem processed_task_parse_compare (old : option snapshot) new cl :
  let o := old_or_empty old in
  let tasks := merge_keys_to_list o new in
  (∀ t v, dict_get o t = Some v → old_raw o t = v)
  ∧ (∀ t, dict_get o t = None → old_raw o t = "")
  ∧ (∀ acc t cmd new_raw,
       COMMAND_CACHE !! t = Some cmd →
       excluded cl t = false →
       dict_get new t = Some new_raw →
       calls (compare_task o new cl acc t)
       = [CallParse t (old_raw o t);
          CallParse t new_raw;
          CallCompare t (parse cmd (old_raw o t)) (parse cmd new_raw)]
       ∧ outcome (compare_task o new cl acc t)
         = match compare cmd (parse cmd (old_raw o t)) (parse cmd new_raw) with
           | PyList items => Return (acc ++ items)
           | PyOther _ =>
               Raise (Exception ("unexpected return value type for "
                                   +:+ cmd_str cmd))
           end)
  ∧ (∀ acc t cmd,
       COMMAND_CACHE !! t = Some cmd →
       excluded cl t = false →
       dict_get new t = None →
       compare_task o new cl acc t
       = ([CallParse t (old_raw o t)], Raise (KeyError t)))
  ∧ calls (compare_output old new cl)
      `prefix_of` flat_map (task_calls o new cl) tasks
  ∧ (∀ items,
       outcome (compare_output old new cl) = Return items →
       calls (compare_output old new cl)
       = flat_map (task_calls o new cl) tasks).
Proof.
  intros o tasks. split_and!.
  - intros t v Hv. unfold old_raw. by rewrite Hv.
  - intros t Hv. unfold old_raw. by rewrite Hv.
  - intros acc t cmd new_raw Hcmd Hex Hnew. rewrite compare_task_spec.
    unfold task_calls, task_anomalies, calls, outcome. cbn [fst snd].
    rewrite Hcmd, Hex, Hnew. split; [done|].
    by destruct (compare cmd _ _).
  - intros acc t cmd Hcmd Hex Hnew. rewrite compare_task_spec.
    unfold task_calls, task_anomalies. by rewrite Hcmd, Hex, Hnew.
  - rewrite compare_output_spec. apply calls_until_raise_prefix.
  - intros items. rewrite compare_output_spec. unfold outcome, calls.
    cbn [fst snd]. apply calls_until_raise_all.
Qed.

(** C6: the task names are the keys of [old] in their order followed by the
    keys that only [new] has in their order, without duplicates (keys [a,b]
    and [b,c] give [a,b,c]); the probes are called task by task in that
    order, and the outcome is the concatenation, in that order, of what
    each task contributes, which for a processed task is the list its
    [compare] returned. *)
Theorem compare_output_task_order (old : option snapshot) new cl :
  let o := old_or_empty old in
  let tasks := merge_keys_to_list o new in
  tasks = keys o ++ filter (λ k, k ∉ keys o) (keys new)
  ∧ (dict_wf o → dict_wf new → NoDup tasks)
  ∧ (∀ k, k ∈ tasks ↔ k ∈ keys o ∨ k ∈ keys new)
  ∧ (∀ va vb vb' vc,
       merge_keys_to_list [("a", va); ("b", vb)] [("b", vb'); ("c", vc)]
       = ["a"; "b"; "c"])
  ∧ calls (compare_output old new cl)
      `prefix_of` flat_map (task_calls o new cl) tasks
  ∧ outcome (compare_output old new cl)
    = concat_results (task_anomalies o new cl <$> tasks)
  ∧ (∀ items_of : string → list anomaly,
       (∀ t, t ∈ tasks →
          ∃ cmd new_raw,
            COMMAND_CACHE !! t = Some cmd
            ∧ excluded cl t = false
            ∧ dict_get new t = Some new_raw
            ∧ compare cmd (parse cmd (old_raw o t)) (parse cmd new_raw)
              = PyList (items_of t)) →
       outcome (compare_output old new cl)
       = Return (concat (items_of <$> tasks))).
Proof.
  intros o tasks. split_and!.
  - done.
  - apply merge_keys_NoDup.
  - apply merge_keys_elem.
  - intros va vb vb' vc. by vm_compute.
  - rewrite compare_output_spec. apply calls_until_raise_prefix.
  - by rewrite compare_output_spec.
  - intros items_of Hall. subst o tasks. rewrite compare_output_spec.
    unfold outcome. cbn [snd]. apply concat_results_all.
    intros t Ht. destruct (Hall t Ht) as (cmd & new_raw & Hc & Hex & Hn & Hr).
    unfold task_anomalies. by rewrite Hc, Hex, Hn, Hr.
Qed.

End diff_engine_facts.

(** * Properties of the printer *)

Section print_anomalies_facts.

Implicit Types (anomalies : list anomaly) (k : kind).

Definition colour (show_color : bool) (code : string) : string :=
  if show_color then ESC +:+ code else "".

(** The line printed for one anomaly: its colour, the mark of its kind, its
    message. *)
Definition anomaly_line (show_color : bool) (a : anomaly) : string :=
  match a.1 with
  | WARNING => colour show_color "[31m" +:+ "! " +:+ a.2 +:+ colour show_color "[0m"
  | CHANGE => colour show_color "[36m" +:+ "+ " +:+ a.2 +:+ colour show_color "[0m"
  | DEBUG => colour show_color "[34m" +:+ "- " +:+ a.2 +:+ colour show_color "[0m"
  end.

(** The first line, from the numbers of changes, warnings and debug
    messages counted. *)
Definition summary_line (show_color : bool) (la lw ld : nat) : string :=
  colour show_color "[32m" +:+ pretty la +:+ " change" +:+ plural la
    +:+ " detected (" +:+ pretty lw +:+ " warning" +:+ plural lw
    +:+ (if decide (0 < ld)
         then " and " +:+ pretty ld +:+ " debug message" +:+ plural ld
         else "")
    +:+ ")" +:+ colour show_color "[0m".

Lemma of_kind_lines anomalies k show_color (f : anomaly → string) :
  (∀ a, a.1 = k → f a = anomaly_line show_color a) →
  f <$> of_kind k anomalies = anomaly_line show_color <$> of_kind k anomalies.
Proof.
  intros Hf. apply list_fmap_ext. intros i a Ha. apply Hf.
  apply list_elem_of_lookup_2 in Ha. unfold of_kind in Ha.
  by apply list_elem_of_filter in Ha as [? _].
Qed.

Lemma of_kind_without_debug anomalies k :
  k ≠ DEBUG →
  of_kind k (filter (λ x, x.1 ≠ DEBUG) anomalies) = of_kind k anomalies.
Proof.
  intros Hk. unfold of_kind. apply list_filter_filter_l.
  intros a Ha. congruence.
Qed.

Lemma of_kind_lengths anomalies :
  length (of_kind WARNING anomalies) + length (of_kind CHANGE anomalies)
    + length (of_kind DEBUG anomalies) = length anomalies.
Proof.
  unfold of_kind. induction anomalies as [|[k m] anomalies IH]; [done|].
  rewrite !filter_cons. cbn [fst length]. unfold anomaly in *.
  destruct k; repeat case_decide; try done; cbn [length]; lia.
Qed.

(** C9: after the summary line the anomalies are printed grouped by kind
    (warnings, changes, then debug messages), each group holding the
    anomalies of its kind in the order of the input. Without the show-debug
    flag the DEBUG anomalies are neither counted nor printed: the output is
    the one of the input with its DEBUG anomalies removed. With the flag
    every anomaly has its line. *)
Theorem print_anomalies_groups_by_kind anomalies (show_debug show_color : bool) :
  print_anomalies anomalies show_debug show_color
  = summary_line show_color
      (length (of_kind CHANGE anomalies))
      (length (of_kind WARNING anomalies))
      (if show_debug then length (of_kind DEBUG anomalies) else 0)
    :: (anomaly_line show_color <$>
          (of_kind WARNING anomalies ++ of_kind CHANGE anomalies
             ++ (if show_debug then of_kind DEBUG anomalies else [])))
  ∧ (∀ k, of_kind k anomalies `sublist_of` anomalies)
  ∧ (∀ k a, a ∈ of_kind k anomalies ↔ a ∈ anomalies ∧ a.1 = k)
  ∧ print_anomalies anomalies false show_color
    = print_anomalies (filter (λ x, x.1 ≠ DEBUG) anomalies) false show_color
  ∧ length (print_anomalies anomalies false show_color)
    = 1 + length (filter (λ x, x.1 ≠ DEBUG) anomalies)
  ∧ length (print_anomalies anomalies true show_color)
    = 1 + length anomalies.
Proof.
  assert (∀ l sd sc,
    print_anomalies l sd sc
    = summary_line sc (length (of_kind CHANGE l))
        (length (of_kind WARNING l))
        (if sd then length (of_kind DEBUG l) else 0)
      :: (anomaly_line sc <$>
            (of_kind WARNING l ++ of_kind CHANGE l
               ++ (if sd then of_kind DEBUG l else [])))) as Hshape.
  { intros l sd sc. unfold print_anomalies. cbn [app]. f_equal.
    - unfold summary_line, colour. by destruct sd, sc.
    - rewrite !fmap_app.
      rewrite (of_kind_lines l WARNING sc); last first.
      { intros [k m] Hk. cbn in Hk. subst k.
        unfold anomaly_line, colour. by destruct sc. }
      rewrite (of_kind_lines l CHANGE sc); last first.
      { intros [k m] Hk. cbn in Hk. subst k.
        unfold anomaly_line, colour. by destruct sc. }
      do 2 f_equal. destruct sd; [|done].
      apply of_kind_lines. intros [k m] Hk. cbn in Hk. subst k.
      unfold anomaly_line, colour. by destruct sc. }
  assert (∀ l, length (filter (λ x : anomaly, x.1 ≠ DEBUG) l)
               = length (of_kind WARNING l) + length (of_kind CHANGE l))
    as Hvisible.
  { intros l. unfold of_kind. induction l as [|[k m] l IH]; [done|].
    rewrite !filter_cons. cbn [fst length]. unfold anomaly in *.
    destruct k; repeat case_decide; try done; cbn [length]; lia. }
  split_and!.
  - apply Hshape.
  - intros k. apply sublist_filter.
  - intros k a. unfold of_kind. rewrite list_elem_of_filter. tauto.
  - rewrite !Hshape. by rewrite !of_kind_without_debug.
  - rewrite Hshape. cbn [length]. rewrite length_fmap, !length_app.
    rewrite Hvisible. simpl. lia.
  - rewrite Hshape. cbn [length]. rewrite length_fmap, !length_app.
    pose proof (of_kind_lengths anomalies). lia.
Qed.

End print_anomalies_facts.

(** * Properties of the driver *)

Section driver_facts.

Context {StructuredT : Type}.
Context (COMMAND_CACHE : gmap string (Command StructuredT)).
Context (cmd_str : Command StructuredT → string).
Context (COMMANDS : list (Command StructuredT)).
Context (local_run : string → list string → snapshot).
Context (env : Env).

Local Abbreviation run := (run COMMAND_CACHE cmd_str COMMANDS local_run env).
Local Abbreviation diff_and_update := (diff_and_update COMMAND_CACHE cmd_str).
Local Abbreviation compare_output := (compare_output COMMAND_CACHE cmd_str).
Local Abbreviation world := (@world StructuredT).

Definition rejection_line : string :=
  "maximum number of cache entries invalid or set too high [1-1024]".

(** The filter [run] hands to [compare_output]: the names given with [-e],
    or the names of all built-in probes. *)
Definition effective_commandlist (args : Args) : list string :=
  if negb (commandlist_truthy (commandlist args))
  then name <$> COMMANDS
  else commandlist_items (commandlist args).

(** The explicit id-vs-id comparison mode: [-C id1 id2] and none of
    [-A], [-E], [-L]. *)
Definition compare_mode (args : Args) (id1 id2 : Z) : Prop :=
  analyze args = false ∧ list_cache args = false
  ∧ list_commands args = false ∧ compare_cache args = Some (id1, id2).

Lemma purge_length c (n : Z) :
  length (entries (purge c n)) = length (entries c) `min` Z.to_nat n.
Proof. unfold purge. cbn [entries]. rewrite length_drop. lia. Qed.

Lemma purge_suffix c (n : Z) :
  entries (purge c n) `suffix_of` entries c.
Proof. unfold purge. cbn [entries]. apply suffix_drop. Qed.

(** The diff stage and what follows it, when the comparison returns. *)
Lemma diff_and_update_returns args c anomalies old new cl diff (w : world) :
  outcome (compare_output old new (Some cl)) = Return diff →
  diff_and_update args c anomalies old new cl w
  = ({| w_fs := <[location c := Stored (entries (purge c (max_cache_entries args)))]>
                  (w_fs w);
        w_log := w_log w
          ++ (EvProbe <$> calls (compare_output old new (Some cl)))
          ++ (EvPrint <$> print_anomalies (anomalies ++ diff)
                            (show_debug args) (colorize args))
          ++ [EvPurge (max_cache_entries args);
              EvSave (location c)
                (entries (purge c (max_cache_entries args)))] |},
     Return ()).
Proof.
  intros Hdiff. unfold diff_and_update, io_compare_output, io_bind, emit_all,
    io_purge, io_save, emit, io_ret, save. cbn.
  rewrite Hdiff. cbn. by rewrite <- !(assoc_L (++)).
Qed.

(** The diff stage when the comparison raises: nothing follows it. *)
Lemma diff_and_update_raises args c anomalies old new cl e (w : world) :
  outcome (compare_output old new (Some cl)) = Raise e →
  diff_and_update args c anomalies old new cl w
  = ({| w_fs := w_fs w;
        w_log := w_log w
          ++ (EvProbe <$> calls (compare_output old new (Some cl))) |},
     Raise e).
Proof.
  intros Hdiff. unfold diff_and_update, io_compare_output, io_bind, emit_all.
  cbn. by rewrite Hdiff.
Qed.

(** C8: a maximum number of cache entries below 1 or above 1024 makes
    [run] print the error line and exit with status 1; nothing else
    happens, the cache is neither loaded nor written. Only such a value is
    rejected in this way. *)
Theorem run_rejects_max_cache_entries tmpdirname args fs :
  ((max_cache_entries args < 1 ∨ max_cache_entries args > 1024)%Z →
     run tmpdirname args (start fs)
     = ({| w_fs := fs; w_log := [EvPrint rejection_line] |},
        Raise (SystemExit 1)))
  ∧ ((1 ≤ max_cache_entries args ≤ 1024)%Z →
       head (w_log (run tmpdirname args (start fs)).1)
       ≠ Some (EvPrint rejection_line)).
Proof.
  split.
  - intros Hout. unfold run.
    assert (bool_decide (max_cache_entries args < 1)%Z
            || bool_decide (max_cache_entries args > 1024)%Z = true) as ->.
    { apply orb_true_iff. rewrite !bool_decide_eq_true. done. }
    done.
  - intros Hin. unfold run.
    assert (bool_decide (max_cache_entries args < 1)%Z
            || bool_decide (max_cache_entries args > 1024)%Z = false) as ->.
    { apply orb_false_iff. rewrite !bool_decide_eq_false. lia. }
    unfold io_bind at 1. unfold start, rejection_line.
    destruct (resolve_cache_location env args ".dawgmon.db") as [loc|e];
      [|done].
    match goal with
    | |- context [if ?b then print _ else _] => destruct b
    end; [by intros [=]|].
    unfold io_bind at 1.
    match goal with
    | |- context [if ?b then _ else io_ret true] => destruct b
    end;
      unfold diff_and_update, io_compare_output, io_load,
        io_purge, io_save, io_bind, input, print, emit, emit_all, io_ret,
        io_raise;
      cbn [w_fs w_log app];
      repeat (match goal with
              | |- context [match ?x with _ => _ end] => destruct x eqn:?
              end; cbn [w_fs w_log app fst snd head]);
      try discriminate.
    all: try destruct (stdin_line env).
    all: cbn in *; simplify_eq; cbn [w_log app head]; by intros [=].
Qed.

Lemma load_location fs c0 c :
  load fs c0 = Return c → location c = location c0.
Proof.
  unfold load. destruct (fs !! location c0) as [[l|]|]; intros [=]; by subst.
Qed.

(** A run in comparison mode up to the lookup of the two entries. *)
Lemma run_compare_mode tmpdirname args fs id1 id2 loc c :
  compare_mode args id1 id2 →
  (1 ≤ max_cache_entries args ≤ 1024)%Z →
  resolve_cache_location env args ".dawgmon.db" = Return loc →
  load fs (new_cache loc) = Return c →
  run tmpdirname args (start fs)
  = (if negb (snapshot_truthy (get_entry c id2))
     then print ("cannot find cache entry with id " +:+ pretty id2)
     else if negb (snapshot_truthy (get_entry c id1))
     then print ("cannot find cache entry with id " +:+ pretty id1)
     else diff_and_update args c [] (get_entry c id1)
            (default [] (get_entry c id2)) (effective_commandlist args))
      {| w_fs := fs; w_log := [EvLoad loc] |}.
Proof.
  intros (Han & Hlc & Hlcmd & Hcc) Hin Hloc Hload. unfold run.
  assert (bool_decide (max_cache_entries args < 1)%Z
          || bool_decide (max_cache_entries args > 1024)%Z = false) as ->.
  { apply orb_false_iff. rewrite !bool_decide_eq_false. lia. }
  unfold io_bind at 1. unfold start. rewrite Hloc.
  rewrite Han, Hlc, Hlcmd, Hcc. rewrite !andb_false_r.
  unfold io_bind at 1. unfold io_ret at 1. cbn [negb].
  unfold io_bind at 1. unfold io_load, io_bind, emit. cbn [w_fs w_log app].
  rewrite Hload. done.
Qed.

(** What [run] does in comparison mode when an entry is missing or holds
    an empty snapshot: the test [if not new] cannot tell the two apart. It
    prints the second id when that entry is missing or empty, otherwise the
    first, and returns. *)
Lemma run_compare_falsy_entry tmpdirname args fs id1 id2 loc c :
  compare_mode args id1 id2 →
  (1 ≤ max_cache_entries args ≤ 1024)%Z →
  resolve_cache_location env args ".dawgmon.db" = Return loc →
  load fs (new_cache loc) = Return c →
  snapshot_truthy (get_entry c id1) = false
  ∨ snapshot_truthy (get_entry c id2) = false →
  run tmpdirname args (start fs)
  = ({| w_fs := fs;
        w_log := [EvLoad loc;
                  EvPrint ("cannot find cache entry with id "
                             +:+ pretty (if snapshot_truthy (get_entry c id2)
                                         then id1 else id2))] |},
     Return ()).
Proof.
  intros Hmode Hin Hloc Hload Hfalsy.
  rewrite (run_compare_mode _ _ _ _ _ _ _ Hmode Hin Hloc Hload).
  destruct (snapshot_truthy (get_entry c id2)); cbn [negb]; [|reflexivity].
  destruct Hfalsy as [->|?]; [reflexivity|discriminate].
Qed.

(** In the comparison mode [-C id1 id2], when an entry is not found and the
    entry of the second id, if it is found, holds a non-empty snapshot, the
    run prints the id that is missing (the second one when it is missing,
    otherwise the first) and returns. Its whole log is the load of the cache
    and that one line: no probe is called, no anomaly is printed, and the
    store is neither purged nor saved. *)
Theorem run_compare_missing_entry tmpdirname args fs id1 id2 loc c :
  compare_mode args id1 id2 →
  (1 ≤ max_cache_entries args ≤ 1024)%Z →
  resolve_cache_location env args ".dawgmon.db" = Return loc →
  load fs (new_cache loc) = Return c →
  get_entry c id1 = None ∨ get_entry c id2 = None →
  get_entry c id2 ≠ Some [] →
  let missing := if decide (get_entry c id2 = None) then id2 else id1 in
  get_entry c missing = None
  ∧ run tmpdirname args (start fs)
    = ({| w_fs := fs;
          w_log := [EvLoad loc;
                    EvPrint ("cannot find cache entry with id "
                               +:+ pretty missing)] |},
       Return ()).
Proof.
  intros Hmode Hin Hloc Hload Hmiss Hne missing.
  rewrite (run_compare_falsy_entry _ _ _ _ _ _ _ Hmode Hin Hloc Hload);
    last first.
  { destruct Hmiss as [->| ->]; [by left|by right]. }
  subst missing. destruct (decide (get_entry c id2 = None)) as [H2|H2].
  - split; [exact H2|]. rewrite H2. cbn [snapshot_truthy]. reflexivity.
  - destruct Hmiss as [H1|H2']; [|by destruct H2]. split; [exact H1|].
    destruct (get_entry c id2) as [[|b d]|].
    + by destruct Hne.
    + cbn [snapshot_truthy]. reflexivity.
    + by destruct H2.
Qed.

(** C10, as amended: once the comparison of the diff stage has returned, [run] prints
    the anomalies, purges the store down to the newest
    [max_cache_entries] entries and saves it, in every mode; so a run in
    the comparison mode [-C id1 id2], which adds no entry, still rewrites
    the backing location with the purged entry list. *)
Theorem run_purges_and_saves_after_diff tmpdirname args fs id1 id2 loc c
    old new diff :
  compare_mode args id1 id2 →
  (1 ≤ max_cache_entries args ≤ 1024)%Z →
  resolve_cache_location env args ".dawgmon.db" = Return loc →
  load fs (new_cache loc) = Return c →
  get_entry c id1 = Some old → old ≠ [] →
  get_entry c id2 = Some new → new ≠ [] →
  outcome (compare_output (Some old) new (Some (effective_commandlist args)))
  = Return diff →
  let kept := entries (purge c (max_cache_entries args)) in
  run tmpdirname args (start fs)
  = ({| w_fs := <[loc := Stored kept]> fs;
        w_log := [EvLoad loc]
          ++ (EvProbe <$> calls (compare_output (Some old) new
                                   (Some (effective_commandlist args))))
          ++ (EvPrint <$> print_anomalies diff (show_debug args)
                            (colorize args))
          ++ [EvPurge (max_cache_entries args); EvSave loc kept] |},
     Return ())
  ∧ kept = drop (length (entries c) - Z.to_nat (max_cache_entries args))
             (entries c)
  ∧ length kept = length (entries c) `min` Z.to_nat (max_cache_entries args)
  ∧ (∀ c' anomalies old' new' cl diff' (w : world),
       outcome (compare_output old' new' (Some cl)) = Return diff' →
       ∃ log,
         diff_and_update args c' anomalies old' new' cl w
         = ({| w_fs := <[location c' :=
                           Stored (entries (purge c' (max_cache_entries args)))]>
                         (w_fs w);
               w_log := w_log w ++ log
                 ++ [EvPurge (max_cache_entries args);
                     EvSave (location c')
                       (entries (purge c' (max_cache_entries args)))] |},
            Return ())).
Proof.
  intros Hmode Hin Hloc Hload Hold Holdne Hnew Hnewne Hdiff kept.
  split_and!.
  - rewrite (run_compare_mode _ _ _ _ _ _ _ Hmode Hin Hloc Hload).
    rewrite Hold, Hnew. destruct old as [|bo old]; [done|].
    destruct new as [|bn new]; [done|]. cbn [snapshot_truthy negb default].
    rewrite (diff_and_update_returns _ _ _ _ _ _ _ _ Hdiff).
    cbn [w_fs w_log]. apply load_location in Hload. cbn in Hload.
    rewrite Hload. done.
  - done.
  - apply purge_length.
  - intros c' anomalies old' new' cl diff' w Hdiff'.
    rewrite (diff_and_update_returns _ _ _ _ _ _ _ _ Hdiff').
    exists ((EvProbe <$> calls (compare_output old' new' (Some cl)))
            ++ (EvPrint <$> print_anomalies (anomalies ++ diff')
                              (show_debug args) (colorize args))).
    by rewrite <- (assoc_L (++) (EvProbe <$> _)).
Qed.

End driver_facts.

(** * The theorems at work on the small registry *)

Section worked_runs.

Import fixtures.

Local Abbreviation compare_output := (compare_output COMMAND_CACHE cmd_str).

(** C1, the claim as stated fails: with the filter ["bar"] the only task
    "foo" is not in the filter, yet it is looked up first, found unknown,
    and its WARNING is returned; and the empty filter excludes nothing. *)
Lemma filter_after_registry_lookup :
  ¬ (∀ (new : snapshot) (filter_names : list string) (t : string),
       keys new = [t] → t ∉ filter_names →
       compare_output None new (Some filter_names) = ([], Return []))
  ∧ ("foo" ∉ ["bar"])
  ∧ compare_output None [("foo", "x")] (Some ["bar"])
    = ([], Return [W (unknown_command_msg "foo")])
  ∧ ("users" ∉ @nil string)
  ∧ compare_output None [("users", "alice")] (Some [])
    = ([CallParse "users" ""; CallParse "users" "alice";
        CallCompare "users" [] ["alice"]],
       Return [(CHANGE, "user alice added")]).
Proof.
  assert ("foo" ∉ ["bar"]) as Hfoo.
  { intros Hin. by apply list_elem_of_singleton in Hin. }
  split_and!.
  - intros Hclaim.
    specialize (Hclaim [("foo", "x")] ["bar"] "foo" eq_refl Hfoo).
    vm_compute in Hclaim. discriminate.
  - exact Hfoo.
  - by vm_compute.
  - apply not_elem_of_nil.
  - by vm_compute.
Qed.

Lemma filter_skips_registered_task_witness :
  ["users"] ≠ [] ∧ ("mounts" ∉ ["users"])
  ∧ compare_output (Some [("users", "alice")])
      [("users", "alice" +:+ NL +:+ "bob"); ("mounts", "/")] (Some ["users"])
    = compare_loop COMMAND_CACHE cmd_str [("users", "alice")]
        [("users", "alice" +:+ NL +:+ "bob"); ("mounts", "/")]
        (Some ["users"]) (["users"] ++ []) [].
Proof.
  assert ("mounts" ∉ ["users"]) as Hm.
  { intros Hin. by apply list_elem_of_singleton in Hin. }
  assert (["users"] ≠ @nil string) as Hne by done.
  split_and!; [done|done|].
  pose proof (filter_skips_registered_task COMMAND_CACHE cmd_str
                (Some [("users", "alice")])
                [("users", "alice" +:+ NL +:+ "bob"); ("mounts", "/")]
                ["users"] ["users"] "mounts" [] Hne Hm eq_refl) as H.
  cbv zeta in H. destruct H as (_ & Hreg & _).
  assert (is_Some (COMMAND_CACHE !! "mounts")) as Hsome.
  { exists mounts. by vm_compute. }
  exact (proj2 (Hreg Hsome)).
Defined.

(** C2 on the scenario old = {"foo": "x"}, new = {"foo": "x"}. *)
Lemma unknown_task_one_warning_witness :
  COMMAND_CACHE !! "foo" = None
  ∧ compare_output (Some [("foo", "x")]) [("foo", "x")] None
    = ([], Return [W (unknown_command_msg "foo")]).
Proof.
  assert (COMMAND_CACHE !! "foo" = None) as Hfoo by (by vm_compute).
  split; [done|].
  pose proof (unknown_task_one_warning COMMAND_CACHE cmd_str
                (Some [("foo", "x")]) [("foo", "x")] None [] "foo" []
                Hfoo eq_refl) as H.
  cbv zeta in H. destruct H as (_ & _ & _ & _ & _ & Honly).
  by apply Honly.
Defined.

Lemma compare_not_list_aborts_witness :
  CallCompare "broken" [] ["x"]
    ∈ calls (compare_output None [("broken", "x")] None)
  ∧ outcome (compare_output None [("broken", "x")] None)
    = Raise (Exception "unexpected return value type for <broken>").
Proof.
  assert (CallCompare "broken" [] ["x"]
            ∈ calls (compare_output None [("broken", "x")] None)) as Hin.
  { vm_compute. do 2 right. left. }
  split; [done|].
  assert (COMMAND_CACHE !! "broken" = Some broken) as Hb by (by vm_compute).
  destruct (compare_not_list_aborts COMMAND_CACHE cmd_str None
              [("broken", "x")] None "broken" [] ["x"] broken "NoneType"
              Hin Hb eq_refl) as (Hout & _ & _).
  exact Hout.
Defined.

Lemma processed_task_parse_compare_witness :
  COMMAND_CACHE !! "users" = Some users
  ∧ calls (compare_task COMMAND_CACHE cmd_str []
             [("users", "alice" +:+ NL +:+ "bob")] None [] "users")
    = [CallParse "users" ""; CallParse "users" ("alice" +:+ NL +:+ "bob");
       CallCompare "users" (parse users "")
         (parse users ("alice" +:+ NL +:+ "bob"))].
Proof.
  assert (COMMAND_CACHE !! "users" = Some users) as Hu by (by vm_compute).
  split; [done|].
  pose proof (processed_task_parse_compare COMMAND_CACHE cmd_str None
                [("users", "alice" +:+ NL +:+ "bob")] None) as H.
  cbv zeta in H. destruct H as (_ & _ & Hbody & _).
  destruct (Hbody [] "users" users ("alice" +:+ NL +:+ "bob")
              Hu eq_refl eq_refl) as [Hcalls _].
  exact Hcalls.
Defined.

Lemma compare_output_task_order_witness :
  merge_keys_to_list [("users", "alice")] [("users", "bob"); ("mounts", "/")]
  = ["users"; "mounts"]
  ∧ outcome (compare_output (Some [("users", "alice")])
               [("users", "bob"); ("mounts", "/")] None)
    = Return (concat ((λ t, if decide (t = "users")
                            then [(CHANGE, "user bob added")]
                            else [(DEBUG, "0 -> 1")])
                        <$> ["users"; "mounts"])).
Proof.
  split; [by vm_compute|].
  pose proof (compare_output_task_order COMMAND_CACHE cmd_str
                (Some [("users", "alice")])
                [("users", "bob"); ("mounts", "/")] None) as H.
  cbv zeta in H. destruct H as (_ & _ & _ & _ & _ & _ & Hall).
  apply Hall. intros t Ht.
  apply elem_of_cons in Ht as [->|Ht].
  { exists users, "bob". by vm_compute. }
  apply list_elem_of_singleton in Ht as ->.
  exists mounts, "/". by vm_compute.
Defined.

Lemma run_rejects_max_cache_entries_witness :
  (max_cache_entries (args_compare 1 2 0) < 1
   ∨ max_cache_entries (args_compare 1 2 0) > 1024)%Z
  ∧ run_fix (args_compare 1 2 0) fs
    = ({| w_fs := fs; w_log := [EvPrint rejection_line] |},
       Raise (SystemExit 1)).
Proof.
  assert (max_cache_entries (args_compare 1 2 0) < 1
          ∨ max_cache_entries (args_compare 1 2 0) > 1024)%Z as Hout.
  { left. cbn. lia. }
  split; [done|].
  exact (proj1 (run_rejects_max_cache_entries COMMAND_CACHE cmd_str COMMANDS
                  local_run env "/tmp/x" (args_compare 1 2 0) fs) Hout).
Defined.

Lemma args_compare_mode id1 id2 m : compare_mode (args_compare id1 id2 m) id1 id2.
Proof. by repeat split. Qed.

(** C7: the run does not report the id that is missing when the other
    entry exists with an empty snapshot. In the store whose entry 2 holds the
    empty snapshot, [-C 1 2] asks for the missing entry 1 and the present
    entry 2; [if not new] (line 141) is true for the empty dict, so the run
    prints "cannot find cache entry with id 2" for an entry that is found,
    and never names id 1. *)
Lemma run_reports_present_empty_entry :
  let c := {| location := loc; entries := [entry_empty] |} in
  load fs_empty_entry (new_cache loc) = Return c
  ∧ get_entry c 1 = None
  ∧ get_entry c 2 = Some []
  ∧ run_fix (args_compare 1 2 16) fs_empty_entry
    = ({| w_fs := fs_empty_entry;
          w_log := [EvLoad loc;
                    EvPrint "cannot find cache entry with id 2"] |},
       Return ())
  ∧ ¬ (∃ missing,
         get_entry c missing = None
         ∧ run_fix (args_compare 1 2 16) fs_empty_entry
           = ({| w_fs := fs_empty_entry;
                 w_log := [EvLoad loc;
                           EvPrint ("cannot find cache entry with id "
                                      +:+ pretty missing)] |},
              Return ())).
Proof.
  intros c.
  assert (run_fix (args_compare 1 2 16) fs_empty_entry
          = ({| w_fs := fs_empty_entry;
                w_log := [EvLoad loc;
                          EvPrint "cannot find cache entry with id 2"] |},
             Return ())) as Hrun by (by vm_compute).
  split_and!; [by vm_compute|by vm_compute|by vm_compute|exact Hrun|].
  intros (missing & Hmissing & Hrun'). rewrite Hrun in Hrun'.
  assert (pretty 2%Z = pretty missing) as Heq.
  { injection Hrun' as Hline. cbn in Hline. by simplify_eq. }
  apply (inj pretty) in Heq. subst missing.
  vm_compute in Hmissing. discriminate.
Qed.

Lemma run_compare_missing_entry_witness :
  (get_entry loaded 1 = None ∨ get_entry loaded 7 = None)
  ∧ get_entry loaded 7 ≠ Some []
  ∧ run_fix (args_compare 1 7 16) fs
    = ({| w_fs := fs;
          w_log := [EvLoad loc;
                    EvPrint "cannot find cache entry with id 7"] |},
       Return ()).
Proof.
  assert (get_entry loaded 1 = None ∨ get_entry loaded 7 = None) as Hmiss.
  { right. by vm_compute. }
  assert (get_entry loaded 7 ≠ Some []) as Hne.
  { vm_compute. discriminate. }
  assert (1 ≤ max_cache_entries (args_compare 1 7 16) ≤ 1024)%Z as Hin.
  { cbn. lia. }
  assert (resolve_cache_location env (args_compare 1 7 16) ".dawgmon.db"
          = Return loc) as Hloc by (by vm_compute).
  assert (load fs (new_cache loc) = Return loaded) as Hload
    by (by vm_compute).
  split_and!; [done|done|].
  pose proof (run_compare_missing_entry COMMAND_CACHE cmd_str COMMANDS
                local_run env "/tmp/x" (args_compare 1 7 16) fs 1 7 loc
                loaded (args_compare_mode 1 7 16) Hin Hloc Hload Hmiss Hne)
    as H.
  cbv zeta in H. destruct H as [_ Hrun].
  unfold run_fix. rewrite Hrun. by vm_compute.
Defined.

Lemma run_purges_and_saves_after_diff_witness :
  outcome (compare_output (Some (entry_snapshot entry1))
             (entry_snapshot entry2)
             (Some (effective_commandlist COMMANDS (args_compare 1 2 2))))
  = Return [(CHANGE, "user bob added")]
  ∧ (run_fix (args_compare 1 2 2) fs).2 = Return ()
  ∧ w_fs (run_fix (args_compare 1 2 2) fs).1 !! loc
    = Some (Stored [entry2; entry3])
  ∧ last (w_log (run_fix (args_compare 1 2 2) fs).1)
    = Some (EvSave loc [entry2; entry3]).
Proof.
  assert (outcome (compare_output (Some (entry_snapshot entry1))
                     (entry_snapshot entry2)
                     (Some (effective_commandlist COMMANDS
                              (args_compare 1 2 2))))
          = Return [(CHANGE, "user bob added")]) as Hdiff
    by (by vm_compute).
  assert (1 ≤ max_cache_entries (args_compare 1 2 2) ≤ 1024)%Z as Hin.
  { cbn. lia. }
  assert (resolve_cache_location env (args_compare 1 2 2) ".dawgmon.db"
          = Return loc) as Hloc by (by vm_compute).
  assert (load fs (new_cache loc) = Return loaded) as Hload
    by (by vm_compute).
  assert (get_entry loaded 1 = Some (entry_snapshot entry1)) as H1
    by (by vm_compute).
  assert (get_entry loaded 2 = Some (entry_snapshot entry2)) as H2
    by (by vm_compute).
  split; [exact Hdiff|].
  pose proof (run_purges_and_saves_after_diff COMMAND_CACHE cmd_str COMMANDS
                local_run env "/tmp/x" (args_compare 1 2 2) fs 1 2 loc
                loaded (entry_snapshot entry1) (entry_snapshot entry2)
                [(CHANGE, "user bob added")]
                (args_compare_mode 1 2 2) Hin Hloc Hload
                H1 ltac:(discriminate) H2 ltac:(discriminate) Hdiff) as H.
  cbv zeta in H. destruct H as (Hrun & _).
  unfold run_fix. rewrite Hrun. by vm_compute.
Defined.

End worked_runs.


(** * Further properties of [compare_output] *)

Section compare_output_more.

Context {StructuredT : Type}.
Context (COMMAND_CACHE : gmap string (Command StructuredT)).
Context (cmd_str : Command StructuredT → string).

Local Abbreviation compare_task := (compare_task COMMAND_CACHE cmd_str).
Local Abbreviation compare_loop := (compare_loop COMMAND_CACHE cmd_str).
Local Abbreviation compare_output := (compare_output COMMAND_CACHE cmd_str).
Local Abbreviation task_anomalies := (task_anomalies COMMAND_CACHE cmd_str).
Local Abbreviation task_calls := (task_calls COMMAND_CACHE).

Implicit Types (old new : snapshot) (cl : option (list string)).
Implicit Types (tasks : list string).

Lemma dict_get_None (d : snapshot) k : dict_get d k = None ↔ k ∉ keys d.
Proof.
  unfold keys. induction d as [|[k' v] d IH]; cbn [dict_get fmap list_fmap fst].
  - split; [intros _; apply not_elem_of_nil|done].
  - rewrite not_elem_of_cons. destruct (decide (k' = k)) as [->|Hne].
    + split; [done|]. intros [? _]. done.
    + rewrite IH. split; [intros ?; split; [congruence|done]|intros [_ ?]; done].
Qed.



Lemma concat_results_elem (f : string → result (list anomaly)) tasks items a :
  concat_results (f <$> tasks) = Return items →
  a ∈ items ↔ ∃ t its, t ∈ tasks ∧ f t = Return its ∧ a ∈ its.
Proof.
  revert items. induction tasks as [|t tasks IH]; intros items;
    cbn [fmap list_fmap concat_results].
  { intros [= <-]. split; [by intros ?%elem_of_nil|].
    by intros (? & ? & ?%elem_of_nil & _). }
  change (list_fmap _ _ f tasks) with (f <$> tasks).
  destruct (f t) as [its|e] eqn:Hft; [|done].
  destruct (concat_results (f <$> tasks)) as [rest|e] eqn:Hrest; [|done].
  cbn. intros [= <-]. rewrite elem_of_app, (IH rest eq_refl). split.
  - intros [Ha|(t' & its' & Ht' & Hf & Ha)].
    + exists t, its. split_and!; [left|done|done].
    + exists t', its'. split_and!; [by right|done|done].
  - intros (t' & its' & [->|Ht']%elem_of_cons & Hf & Ha).
    + left. congruence.
    + right. by exists t', its'.
Qed.


Lemma task_anomalies_return_inv old new cl t its :
  task_anomalies old new cl t = Return its →
  (COMMAND_CACHE !! t = None ∧ its = [W (unknown_command_msg t)])
  ∨ (∃ cmd, COMMAND_CACHE !! t = Some cmd
       ∧ ((excluded cl t = true ∧ its = [])
          ∨ (excluded cl t = false
             ∧ ∃ new_raw,
                 dict_get new t = Some new_raw
                 ∧ compare cmd (parse cmd (old_raw old t)) (parse cmd new_raw)
                   = PyList its))).
Proof.
  unfold task_anomalies.
  destruct (COMMAND_CACHE !! t) as [cmd|]; [|intros [= <-]; by left].
  intros H. right. exists cmd. split; [done|].
  destruct (excluded cl t); [left; by simplify_eq|right; split; [done|]].
  destruct (dict_get new t) as [new_raw|]; [|done].
  exists new_raw. split; [done|].
  destruct (compare cmd _ _) as [items|ty]; by simplify_eq.
Qed.

Lemma excluded_ext cl1 cl2 tasks old new acc :
  (∀ t, t ∈ tasks → excluded cl1 t = excluded cl2 t) →
  compare_loop old new cl1 tasks acc = compare_loop old new cl2 tasks acc.
Proof.
  revert acc. induction tasks as [|t tasks IH]; intros acc Hex; [done|].
  cbn [compare_loop].
  assert (compare_task old new cl1 acc t = compare_task old new cl2 acc t)
    as ->.
  { unfold compare_task. destruct (COMMAND_CACHE !! t); [|done].
    fold (excluded cl1 t). fold (excluded cl2 t). rewrite (Hex t) by left.
    done. }
  apply tr_bind_ext. intros acc'. apply IH. intros t' Ht'. apply Hex.
  by right.
Qed.




(** X5: Where the returned anomalies come from: each one is the unknown-command
    WARNING of an unregistered task or an element of the list that the
    [compare] of a registered, unfiltered task returned; and every such
    anomaly is in the result. *)
Theorem compare_output_anomaly_origin (old : option snapshot) new cl items a :
  outcome (compare_output old new cl) = Return items →
  a ∈ items
  ↔ ∃ t, t ∈ merge_keys_to_list (old_or_empty old) new
      ∧ ((COMMAND_CACHE !! t = None ∧ a = W (unknown_command_msg t))
         ∨ (∃ cmd new_raw its,
              COMMAND_CACHE !! t = Some cmd
              ∧ excluded cl t = false
              ∧ dict_get new t = Some new_raw
              ∧ compare cmd (parse cmd (old_raw (old_or_empty old) t))
                            (parse cmd new_raw) = PyList its
              ∧ a ∈ its)).
Proof.
  rewrite compare_output_spec. unfold outcome. cbn [snd]. intros Hret.
  rewrite (concat_results_elem _ _ _ _ Hret). split.
  - intros (t & its & Ht & Hits & Ha). exists t. split; [done|].
    apply task_anomalies_return_inv in Hits
      as [[Hnone ->]|(cmd & Hcmd & [[_ ->]|(Hex & new_raw & Hn & Hc)])].
    + left. apply list_elem_of_singleton in Ha. done.
    + by apply elem_of_nil in Ha.
    + right. by exists cmd, new_raw, its.
  - intros (t & Ht & [[Hnone ->]|(cmd & new_raw & its & Hcmd & Hex & Hn & Hc & Ha)]).
    + exists t, [W (unknown_command_msg t)]. split_and!; [done| |left].
      unfold task_anomalies. by rewrite Hnone.
    + exists t, its. split_and!; [done| |done].
      unfold task_anomalies. by rewrite Hcmd, Hex, Hn, Hc.
Qed.

(** X6: A filter that names every task changes nothing: the comparison makes the
    same calls and has the same outcome as without a filter. *)
Theorem compare_output_covering_filter (old : option snapshot) new
    (filter_names : list string) :
  (∀ t, t ∈ merge_keys_to_list (old_or_empty old) new → t ∈ filter_names) →
  compare_output old new (Some filter_names) = compare_output old new None.
Proof.
  intros Hcover. unfold compare_output. apply excluded_ext.
  intros t Ht. unfold excluded. cbn [commandlist_truthy commandlist_items default].
  destruct filter_names as [|x f]; [done|]. cbn [commandlist_truthy andb].
  apply bool_decide_eq_false. intros Hnot. by apply Hnot, Hcover.
Qed.

End compare_output_more.


(** * Further properties of [print_anomalies] *)

Section print_anomalies_more.

Implicit Types (anomalies : list anomaly) (k : kind).

(** The output in closed form: the summary line, then the lines of the
    warnings, of the changes and of the debug messages. *)
Lemma print_anomalies_shape anomalies (show_debug show_color : bool) :
  print_anomalies anomalies show_debug show_color
  = summary_line show_color
      (length (of_kind CHANGE anomalies))
      (length (of_kind WARNING anomalies))
      (if show_debug then length (of_kind DEBUG anomalies) else 0)
    :: (anomaly_line show_color <$>
          (of_kind WARNING anomalies ++ of_kind CHANGE anomalies
             ++ (if show_debug then of_kind DEBUG anomalies else []))).
Proof.
  unfold print_anomalies. cbn [app]. f_equal.
  - unfold summary_line, colour. by destruct show_debug, show_color.
  - rewrite !fmap_app.
    rewrite (of_kind_lines anomalies WARNING show_color); last first.
    { intros [k m] Hk. cbn in Hk. subst k.
      unfold anomaly_line, colour. by destruct show_color. }
    rewrite (of_kind_lines anomalies CHANGE show_color); last first.
    { intros [k m] Hk. cbn in Hk. subst k.
      unfold anomaly_line, colour. by destruct show_color. }
    do 2 f_equal. destruct show_debug; [|done].
    apply of_kind_lines. intros [k m] Hk. cbn in Hk. subst k.
    unfold anomaly_line, colour. by destruct show_color.
Qed.

Lemma of_kind_app k anomalies1 anomalies2 :
  of_kind k (anomalies1 ++ anomalies2)
  = of_kind k anomalies1 ++ of_kind k anomalies2.
Proof. unfold of_kind. apply filter_app. Qed.

Lemma of_kind_all k anomalies :
  (∀ a, a ∈ anomalies → a.1 = k) → of_kind k anomalies = anomalies.
Proof.
  unfold of_kind. induction anomalies as [|a anomalies IH]; intros Hall;
    [done|].
  rewrite filter_cons_True by (apply Hall; left).
  f_equal. apply IH. intros a' Ha'. apply Hall. by right.
Qed.

Lemma of_kind_none k anomalies :
  (∀ a, a ∈ anomalies → a.1 ≠ k) → of_kind k anomalies = [].
Proof.
  unfold of_kind. induction anomalies as [|a anomalies IH]; intros Hall;
    [done|].
  rewrite filter_cons_False by (apply Hall; left).
  apply IH. intros a' Ha'. apply Hall. by right.
Qed.

Lemma print_anomalies_leading ws anomalies (show_debug show_color : bool) :
  (∀ a, a ∈ ws → a.1 = WARNING) →
  drop 1 (print_anomalies (ws ++ anomalies) show_debug show_color)
  = (anomaly_line show_color <$> ws)
    ++ drop 1 (print_anomalies anomalies show_debug show_color).
Proof.
  intros Hws. rewrite !print_anomalies_shape. cbn [drop].
  rewrite !of_kind_app. rewrite (of_kind_all WARNING ws Hws).
  rewrite (of_kind_none CHANGE ws), (of_kind_none DEBUG ws);
    [|intros a Ha; rewrite (Hws a Ha); done..].
  cbn [app]. rewrite <- (assoc_L (++) ws). by rewrite fmap_app.
Qed.

Lemma of_kind_of_kind k k' anomalies :
  of_kind k (of_kind k' anomalies)
  = if decide (k = k') then of_kind k' anomalies else [].
Proof.
  destruct (decide (k = k')) as [->|Hne].
  - apply of_kind_all. intros a Ha. unfold of_kind in Ha.
    by apply list_elem_of_filter in Ha as [? _].
  - apply of_kind_none. intros a Ha. unfold of_kind in Ha.
    apply list_elem_of_filter in Ha as [Ha _]. congruence.
Qed.

(** X7: The warnings that lead the input are printed right after the summary
    line, in their order and before every other anomaly; this is why [run]
    puts its own warnings in front of the result of [compare_output]. *)
Theorem print_anomalies_leading_warnings ws anomalies
    (show_debug show_color : bool) :
  (∀ a, a ∈ ws → a.1 = WARNING) →
  drop 1 (print_anomalies (ws ++ anomalies) show_debug show_color)
  = (anomaly_line show_color <$> ws)
    ++ drop 1 (print_anomalies anomalies show_debug show_color).
Proof.
  intros Hws. rewrite !print_anomalies_shape. cbn [drop].
  rewrite !of_kind_app. rewrite (of_kind_all WARNING ws Hws).
  rewrite (of_kind_none CHANGE ws), (of_kind_none DEBUG ws);
    [|intros a Ha; rewrite (Hws a Ha); done..].
  cbn [app]. rewrite <- (assoc_L (++) ws). by rewrite fmap_app.
Qed.

(** X8: The output depends on the input only through its three per-kind
    subsequences: how anomalies of different kinds are interleaved makes no
    difference, and every warning is printed before every change, every
    change before every debug message. *)
Theorem print_anomalies_interleaving anomalies1 anomalies2
    (show_debug show_color : bool) :
  (∀ k, of_kind k anomalies1 = of_kind k anomalies2) →
  print_anomalies anomalies1 show_debug show_color
  = print_anomalies anomalies2 show_debug show_color
  ∧ print_anomalies anomalies1 show_debug show_color
    = print_anomalies
        (of_kind WARNING anomalies1 ++ of_kind CHANGE anomalies1
           ++ of_kind DEBUG anomalies1)
        show_debug show_color.
Proof.
  intros Hkinds. split.
  - rewrite !print_anomalies_shape. by rewrite !Hkinds.
  - rewrite !print_anomalies_shape. rewrite !of_kind_app.
    rewrite !of_kind_of_kind. repeat case_decide; try done.
    cbn [app]. by rewrite !(right_id_L [] (++)).
Qed.

Lemma append_empty_l (s : string) : "" +:+ s = s.
Proof. reflexivity. Qed.

Lemma append_assoc_L (s1 s2 s3 : string) :
  s1 +:+ (s2 +:+ s3) = (s1 +:+ s2) +:+ s3.
Proof.
  induction s1 as [|c s1 IH]; [done|].
  change (String c s1 +:+ (s2 +:+ s3)) with (String c (s1 +:+ (s2 +:+ s3))).
  rewrite IH. reflexivity.
Qed.

Lemma append_empty_r (s : string) : s +:+ "" = s.
Proof.
  induction s as [|c s IH]; [done|].
  change (String c s +:+ "") with (String c (s +:+ "")). by rewrite IH.
Qed.

(** X9: Colour only wraps: the coloured output has the same lines as the plain
    one, each between an escape sequence and the reset sequence. *)
Theorem print_anomalies_colour_wraps anomalies (show_debug : bool) :
  Forall2 (λ coloured plain,
             ∃ code, coloured = (ESC +:+ code) +:+ plain +:+ (ESC +:+ "[0m"))
    (print_anomalies anomalies show_debug true)
    (print_anomalies anomalies show_debug false).
Proof.
  rewrite !print_anomalies_shape. constructor.
  - exists "[32m". unfold summary_line, colour.
    rewrite !append_empty_l, !append_empty_r.
    by rewrite <- !append_assoc_L.
  - apply Forall2_fmap, Forall_Forall2_diag, Forall_forall.
    intros [k m] _. unfold anomaly_line, colour. cbn [fst snd].
    destruct k; [exists "[36m"|exists "[31m"|exists "[34m"];
      rewrite !append_empty_l, !append_empty_r;
      by rewrite <- !append_assoc_L.
Qed.

End print_anomalies_more.


(** * Further properties of [run] *)

Section run_more.

Context {StructuredT : Type}.
Context (COMMAND_CACHE : gmap string (Command StructuredT)).
Context (cmd_str : Command StructuredT → string).
Context (COMMANDS : list (Command StructuredT)).
Context (local_run : string → list string → snapshot).
Context (env : Env).

Local Abbreviation run := (run COMMAND_CACHE cmd_str COMMANDS local_run env).
Local Abbreviation diff_and_update := (diff_and_update COMMAND_CACHE cmd_str).
Local Abbreviation compare_output := (compare_output COMMAND_CACHE cmd_str).
Local Abbreviation world := (@world StructuredT).

(** Unfold a run and follow each of its paths. *)
Ltac run_paths :=
  unfold run, diff_and_update, io_compare_output, io_load, io_purge, io_save,
    io_bind, input, print, sys_exit, emit, emit_all, io_ret, io_raise;
  cbn [w_fs w_log fst snd];
  repeat (match goal with
          | |- context [match ?x with _ => _ end] => destruct x eqn:?
          end; cbn [w_fs w_log fst snd]).

(** X10: A run that ends with an exception has not written the store: [save] is
    the last statement of [run], after everything that can raise. *)
Theorem run_raise_leaves_store tmpdirname args (w : world) e :
  (run tmpdirname args w).2 = Raise e →
  w_fs (run tmpdirname args w).1 = w_fs w.
Proof.
  run_paths; intros ?; simplify_eq;
    repeat match goal with
           | H : context [if ?b then _ else _] |- _ => destruct b
           | H : context [stdin_line env] |- _ => destruct (stdin_line env)
           end;
    cbn in *; simplify_eq; done.
Qed.

Definition out_of_range (args : Args) : Prop :=
  (max_cache_entries args < 1 ∨ max_cache_entries args > 1024)%Z.

(** X12: What a run does to the backing locations: nothing, or one [save] as its
    very last step, which overwrites the cache location and nothing else
    with at most [max_cache_entries] entries. *)
Theorem run_store_frame tmpdirname args (w : world) :
  let w' := (run tmpdirname args w).1 in
  w_fs w' = w_fs w
  ∨ ∃ loc records,
      resolve_cache_location env args ".dawgmon.db" = Return loc
      ∧ w_fs w' = <[loc := Stored records]> (w_fs w)
      ∧ (∀ other, other ≠ loc → w_fs w' !! other = w_fs w !! other)
      ∧ length records ≤ Z.to_nat (max_cache_entries args)
      ∧ (1 ≤ max_cache_entries args ≤ 1024)%Z
      ∧ (run tmpdirname args w).2 = Return ()
      ∧ last (w_log w') = Some (EvSave loc records).
Proof.
  cbv zeta. unfold run.
  destruct (bool_decide (max_cache_entries args < 1)%Z
            || bool_decide (max_cache_entries args > 1024)%Z) eqn:Hrange.
  { by left. }
  apply orb_false_iff in Hrange. rewrite !bool_decide_eq_false in Hrange.
  run_paths;
    repeat match goal with
           | H : context [if ?b then _ else _] |- _ => destruct b
           | H : context [stdin_line env] |- _ => destruct (stdin_line env)
           end;
    cbn in *; simplify_eq; try (by left).
  all: right.
  all: match goal with
       | H : load _ _ = Return ?c |- _ =>
           pose proof (load_location _ _ _ H) as Hloc; cbn in Hloc
       end.
  all: unfold save; cbn [location entries purge w_fs]; subst.
  all: eexists _, _.
  all: split; [reflexivity|]; split; [reflexivity|].
  all: split; [intros other Hother; by rewrite lookup_insert_ne|].
  all: split; [rewrite length_drop; lia|]; split; [lia|].
  all: split; [reflexivity|apply last_snoc].
Qed.

Lemma in_range_test args :
  ¬ out_of_range args →
  bool_decide (max_cache_entries args < 1)%Z
  || bool_decide (max_cache_entries args > 1024)%Z = false.
Proof.
  unfold out_of_range. intros Hin. apply orb_false_iff.
  rewrite !bool_decide_eq_false. lia.
Qed.

(** X13: Without [-A], [-C], [-E] or [-L] a run only asks for an action: the
    cache is not loaded and nothing is written. *)
Theorem run_no_action tmpdirname args (w : world) loc :
  ¬ out_of_range args →
  resolve_cache_location env args ".dawgmon.db" = Return loc →
  analyze args = false → list_cache args = false →
  list_commands args = false → compare_cache args = None →
  run tmpdirname args w
  = ({| w_fs := w_fs w;
        w_log := w_log w ++ [EvPrint "select an action -A/C/E/L"] |},
     Return ()).
Proof.
  intros Hin Hloc Han Hlc Hle Hcc. unfold run.
  rewrite (in_range_test _ Hin). unfold io_bind at 1. rewrite Hloc.
  rewrite Han, Hlc, Hle, Hcc. reflexivity.
Qed.

(** X14: The cache location is resolved before the action is even looked at:
    with no [-l] location and [$HOME] unset, every run with a valid maximum
    ends in the [TypeError] of [os.path.join] before doing anything, also a
    run that would only list the commands. *)
Theorem run_home_unset tmpdirname args (w : world) :
  ¬ out_of_range args →
  HOME env = None →
  str_truthy (cache_location args) = false →
  run tmpdirname args w
  = (w, Raise (TypeError
                 "expected str, bytes or os.PathLike object, not NoneType")).
Proof.
  intros Hin Hhome Hloc. unfold run. rewrite (in_range_test _ Hin).
  unfold io_bind at 1. unfold resolve_cache_location.
  rewrite Hloc, Hhome. reflexivity.
Qed.

(** X15: An analysis started without [-f] by a user who is not root asks for
    confirmation, and any answer other than [y] or [Y] ends the run there:
    the cache is not loaded, no probe output is collected. *)
Theorem run_prompt_declined tmpdirname args (w : world) loc answer :
  ¬ out_of_range args →
  resolve_cache_location env args ".dawgmon.db" = Return loc →
  analyze args = true → force args = false → euid env ≠ 0%Z →
  stdin_line env = Some answer → answer ≠ "y" → answer ≠ "Y" →
  run tmpdirname args w
  = ({| w_fs := w_fs w;
        w_log := w_log w
          ++ [EvPrint "It's strongly recommended to run an analysis as root.";
              EvInput "Continue anyway with the analysis y/n? "] |},
     Return ()).
Proof.
  intros Hin Hloc Han Hforce Heuid Hanswer Hy HY. unfold run.
  rewrite (in_range_test _ Hin). unfold io_bind at 1. rewrite Hloc.
  assert (negb (force args) && bool_decide (euid env ≠ 0%Z) && analyze args
          = true) as ->.
  { by rewrite Hforce, Han, (bool_decide_eq_true_2 _ Heuid). }
  rewrite Han, !andb_false_r.
  cbn [andb].
  repeat progress (unfold io_bind, print, input, emit, io_ret;
                   cbn [w_fs w_log]).
  rewrite Hanswer.
  repeat progress (unfold io_bind, print, input, emit, io_ret;
                   cbn [w_fs w_log]).
  rewrite (bool_decide_eq_false_2 (answer = "y" ∨ answer = "Y"))
    by (intros [?|?]; done).
  cbn [negb]. by rewrite <- (assoc_L (++)).
Qed.

(** X11: At end of input the prompt of line 94 cannot be answered: an
    analysis started without [-f] by a user who is not root prints the
    warning, writes the prompt and ends with the [EOFError] of [input]; the
    cache is not loaded and nothing is written. *)
Theorem run_prompt_eof tmpdirname args (w : world) loc :
  ¬ out_of_range args →
  resolve_cache_location env args ".dawgmon.db" = Return loc →
  analyze args = true → force args = false → euid env ≠ 0%Z →
  stdin_line env = None →
  run tmpdirname args w
  = ({| w_fs := w_fs w;
        w_log := w_log w
          ++ [EvPrint "It's strongly recommended to run an analysis as root.";
              EvInput "Continue anyway with the analysis y/n? "] |},
     Raise EOFError).
Proof.
  intros Hin Hloc Han Hforce Heuid Heof. unfold run.
  rewrite (in_range_test _ Hin). unfold io_bind at 1. rewrite Hloc.
  assert (negb (force args) && bool_decide (euid env ≠ 0%Z) && analyze args
          = true) as ->.
  { by rewrite Hforce, Han, (bool_decide_eq_true_2 _ Heuid). }
  rewrite Han, !andb_false_r. cbn [andb].
  repeat progress (unfold io_bind, print, input, emit, io_ret, io_raise;
                   cbn [w_fs w_log]).
  rewrite Heof.
  repeat progress (unfold io_bind, print, input, emit, io_ret, io_raise;
                   cbn [w_fs w_log]).
  by rewrite <- (assoc_L (++)).
Qed.

(** [force := True] *)
Definition with_force (args : Args) : Args :=
  {| analyze := analyze args; compare_cache := compare_cache args;
     list_commands := list_commands args; list_cache := list_cache args;
     show_debug := show_debug args; commandlist := commandlist args;
     force := true; colorize := colorize args;
     cache_location := cache_location args;
     max_cache_entries := max_cache_entries args |}.

(** X16: Answering [y] or [Y] at the prompt is the same as having passed [-f]:
    after the warning and the prompt the run goes on exactly as the forced
    run does. *)
Theorem run_prompt_accepted tmpdirname args (w : world) loc :
  ¬ out_of_range args →
  resolve_cache_location env args ".dawgmon.db" = Return loc →
  analyze args = true → force args = false → euid env ≠ 0%Z →
  stdin_line env = Some "y" ∨ stdin_line env = Some "Y" →
  run tmpdirname args w
  = run tmpdirname (with_force args)
      {| w_fs := w_fs w;
         w_log := w_log w
           ++ [EvPrint "It's strongly recommended to run an analysis as root.";
               EvInput "Continue anyway with the analysis y/n? "] |}.
Proof.
  intros Hin Hloc Han Hforce Heuid Hanswer.
  assert (∃ answer, stdin_line env = Some answer
                    ∧ (answer = "y" ∨ answer = "Y"))
    as (answer & Hline & Hyes).
  { destruct Hanswer as [->| ->]; eexists; (split; [done|]); [by left|by right]. }
  unfold run.
  assert (¬ out_of_range (with_force args)) as Hin' by done.
  rewrite (in_range_test _ Hin), (in_range_test _ Hin').
  unfold io_bind at 1. unfold io_bind at 3.
  assert (resolve_cache_location env (with_force args) ".dawgmon.db"
          = Return loc) as -> by done.
  rewrite Hloc.
  assert (negb (force args) && bool_decide (euid env ≠ 0%Z) && analyze args
          = true) as ->.
  { by rewrite Hforce, Han, (bool_decide_eq_true_2 _ Heuid). }
  cbn [analyze list_cache list_commands compare_cache force
         with_force commandlist show_debug colorize max_cache_entries].
  rewrite Han, !andb_false_r. cbn [negb andb].
  unfold io_bind at 1. unfold io_bind at 1.
  unfold print, input, emit at 1. rewrite Hline.
  unfold io_bind at 1. unfold emit at 1.
  unfold io_ret at 1. unfold io_bind at 1. unfold io_ret at 1.
  rewrite (bool_decide_eq_true_2 _ Hyes).
  unfold io_bind at 2. unfold io_ret at 2.
  cbn [negb w_fs w_log]. rewrite <- (assoc_L (++)). reflexivity.
Qed.

Ltac io_steps :=
  repeat progress (unfold io_bind, io_load, io_purge, io_save, print, input,
                     emit, emit_all, io_ret, io_raise;
                   cbn [w_fs w_log andb negb]).

(** The line [-L] prints for one cache entry. *)
Definition entry_line (entry : CacheEntry) : string :=
  format_4d (id entry) +:+ TAB +:+ timestamp entry.

(** X17: Listing the cache ([-L]) only reads it: the run loads the store, prints
    the header and one line per entry in store order, and then stops; it
    neither purges nor saves, whatever [-E] or [-C] say. *)
Theorem run_list_cache tmpdirname args (w : world) loc c :
  ¬ out_of_range args →
  resolve_cache_location env args ".dawgmon.db" = Return loc →
  list_cache args = true → analyze args = false →
  load (w_fs w) (new_cache loc) = Return c →
  run tmpdirname args w
  = ({| w_fs := w_fs w;
        w_log := w_log w
          ++ [EvLoad loc; EvPrint ("  ID" +:+ TAB +:+ "TIMESTAMP")]
          ++ (EvPrint <$> (entry_line <$> entries c)) |},
     Return ()).
Proof.
  intros Hin Hloc Hlc Han Hload. unfold run.
  rewrite (in_range_test _ Hin). unfold io_bind at 1. rewrite Hloc.
  rewrite Hlc, Han, !andb_false_r. cbn [negb andb]. io_steps.
  rewrite Hload. cbn [w_fs w_log]. unfold get_entries.
  rewrite <- list_fmap_compose. by rewrite <- !(assoc_L (++)).
Qed.

#[local] Existing Instance string_le_dec.

#[local] Instance string_le_total : Total string_le.
Proof. intros a b. apply String.leb_total. Qed.

(** X18: Listing the commands ([-E]) prints every registered name once, in
    ascending order; the cache is loaded first but not written. *)
Theorem run_list_commands tmpdirname args (w : world) loc c :
  ¬ out_of_range args →
  resolve_cache_location env args ".dawgmon.db" = Return loc →
  list_cache args = false → list_commands args = true →
  analyze args = false →
  load (w_fs w) (new_cache loc) = Return c →
  ∃ cmd_list,
    run tmpdirname args w
    = ({| w_fs := w_fs w;
          w_log := w_log w ++ [EvLoad loc] ++ (EvPrint <$> cmd_list) |},
       Return ())
    ∧ Sorted string_le cmd_list
    ∧ NoDup cmd_list
    ∧ ∀ n, n ∈ cmd_list ↔ is_Some (COMMAND_CACHE !! n).
Proof.
  intros Hin Hloc Hlc Hle Han Hload.
  exists (merge_sort string_le (map_to_list COMMAND_CACHE).*1).
  split_and!.
  - unfold run. rewrite (in_range_test _ Hin). unfold io_bind at 1.
    rewrite Hloc. rewrite Hlc, Hle, Han, !andb_false_r. cbn [negb andb].
    io_steps. rewrite Hload. cbn [w_fs w_log].
    by rewrite <- !(assoc_L (++)).
  - apply (Sorted_merge_sort string_le).
  - rewrite merge_sort_Permutation. apply NoDup_fst_map_to_list.
  - intros n. rewrite merge_sort_Permutation.
    rewrite list_elem_of_fmap. split.
    + intros ([n' cmd] & -> & Hin'). apply elem_of_map_to_list in Hin'.
      by exists cmd.
    + intros [cmd Hcmd]. exists (n, cmd). split; [done|].
      by apply elem_of_map_to_list.
Qed.

(** A run up to the call of [local_run], for an analysis that needs no
    confirmation. *)
Lemma run_analyze_mode tmpdirname args (w : world) loc c :
  ¬ out_of_range args →
  resolve_cache_location env args ".dawgmon.db" = Return loc →
  analyze args = true → list_cache args = false →
  list_commands args = false →
  force args = true ∨ euid env = 0%Z →
  load (w_fs w) (new_cache loc) = Return c →
  let names := effective_commandlist COMMANDS args in
  let new := local_run tmpdirname names in
  let old := get_last_entry c in
  run tmpdirname args w
  = if commandlist_truthy (commandlist args)
    then diff_and_update args c
           [W "results NOT cached as only partial command list being run"]
           old new names
           {| w_fs := w_fs w;
              w_log := w_log w ++ [EvLoad loc; EvLocalRun tmpdirname names] |}
    else diff_and_update args (add_entry (now env) c new)
           (if snapshot_truthy old then []
            else [W "no cache entry found yet so caching baseline"])
           old new names
           {| w_fs := w_fs w;
              w_log := w_log w ++ [EvLoad loc; EvLocalRun tmpdirname names;
                                   EvAddEntry new] |}.
Proof.
  intros Hin Hloc Han Hlc Hle Hroot Hload names new old. subst names new old.
  unfold run, effective_commandlist.
  rewrite (in_range_test _ Hin). unfold io_bind at 1. rewrite Hloc.
  assert (negb (force args) && bool_decide (euid env ≠ 0%Z) && analyze args
          = false) as ->.
  { destruct Hroot as [->| ->]; [done|].
    rewrite (bool_decide_eq_false_2 (0%Z ≠ 0%Z)) by (intros H; by apply H).
    by rewrite andb_false_r. }
  rewrite Han, Hlc, Hle. cbn [negb andb]. rewrite andb_true_r.
  io_steps. rewrite Hload.
  destruct (commandlist_truthy (commandlist args)); io_steps.
  - by rewrite <- (assoc_L (++)).
  - rewrite <- !(assoc_L (++)). cbn [app].
    by destruct (snapshot_truthy (get_last_entry c)).
Qed.

(** X19: A partial analysis ([-A] with [-e]) collects only the named probes and
    never adds its result to the store: the run warns first that the results
    are not cached, and what it saves are the newest [max_cache_entries] of
    the entries it loaded. *)
Theorem run_partial_analysis tmpdirname args (w : world) loc c names diff :
  ¬ out_of_range args →
  resolve_cache_location env args ".dawgmon.db" = Return loc →
  analyze args = true → list_cache args = false →
  list_commands args = false →
  force args = true ∨ euid env = 0%Z →
  commandlist args = Some names → names ≠ [] →
  load (w_fs w) (new_cache loc) = Return c →
  outcome (compare_output (get_last_entry c) (local_run tmpdirname names)
             (Some names)) = Return diff →
  let kept := entries (purge c (max_cache_entries args)) in
  let warning :=
    W "results NOT cached as only partial command list being run" in
  run tmpdirname args w
  = ({| w_fs := <[loc := Stored kept]> (w_fs w);
        w_log := w_log w
          ++ [EvLoad loc; EvLocalRun tmpdirname names]
          ++ (EvProbe <$> calls (compare_output (get_last_entry c)
                                   (local_run tmpdirname names) (Some names)))
          ++ (EvPrint <$> print_anomalies (warning :: diff)
                            (show_debug args) (colorize args))
          ++ [EvPurge (max_cache_entries args); EvSave loc kept] |},
     Return ())
  ∧ kept `suffix_of` entries c
  ∧ print_anomalies (warning :: diff) (show_debug args) (colorize args) !! 1
    = Some (anomaly_line (colorize args) warning).
Proof.
  intros Hin Hloc Han Hlc Hle Hroot Hcl Hne Hload Hdiff kept warning.
  split_and!.
  - rewrite (run_analyze_mode _ _ _ _ _ Hin Hloc Han Hlc Hle Hroot Hload).
    unfold effective_commandlist. rewrite Hcl.
    destruct names as [|n names]; [done|].
    cbn [commandlist_truthy commandlist_items default negb].
    rewrite (diff_and_update_returns _ _ _ _ _ _ _ _ _ _ Hdiff).
    cbn [w_fs w_log purge location]. apply load_location in Hload.
    cbn in Hload. rewrite Hload. by rewrite <- !(assoc_L (++)).
  - apply purge_suffix.
  - pose proof (print_anomalies_leading [warning] diff (show_debug args)
                  (colorize args)) as Hlead.
    change (print_anomalies (warning :: diff) (show_debug args)
              (colorize args) !! 1)
      with (print_anomalies ([warning] ++ diff) (show_debug args)
              (colorize args) !! (1 + 0)).
    rewrite <- lookup_drop, Hlead; [done|].
    by intros a ->%list_elem_of_singleton.
Qed.

Lemma purge_keeps_last c e (n : Z) :
  (1 ≤ n)%Z → last (entries c) = Some e → last (entries (purge c n)) = Some e.
Proof.
  intros Hn Hlast. unfold purge. cbn [entries].
  destruct (entries c) as [|x l _] using rev_ind; [done|].
  rewrite last_snoc in Hlast. simplify_eq.
  rewrite length_app. cbn [length].
  rewrite drop_app_le by lia. by rewrite last_snoc.
Qed.

(** X20: A full analysis ([-A] without [-e]) collects every built-in probe and
    appends the new snapshot to the store before comparing; since the
    maximum is at least 1, the purge never drops it: the saved list ends with
    the entry of this run. Without a previous entry the run warns first that
    it is caching the baseline. *)
Theorem run_full_analysis tmpdirname args (w : world) loc c diff :
  ¬ out_of_range args →
  resolve_cache_location env args ".dawgmon.db" = Return loc →
  analyze args = true → list_cache args = false →
  list_commands args = false →
  force args = true ∨ euid env = 0%Z →
  commandlist_truthy (commandlist args) = false →
  load (w_fs w) (new_cache loc) = Return c →
  let names := name <$> COMMANDS in
  let new := local_run tmpdirname names in
  let old := get_last_entry c in
  outcome (compare_output old new (Some names)) = Return diff →
  let kept := entries (purge (add_entry (now env) c new)
                         (max_cache_entries args)) in
  let baseline := if snapshot_truthy old then []
                  else [W "no cache entry found yet so caching baseline"] in
  run tmpdirname args w
  = ({| w_fs := <[loc := Stored kept]> (w_fs w);
        w_log := w_log w
          ++ [EvLoad loc; EvLocalRun tmpdirname names; EvAddEntry new]
          ++ (EvProbe <$> calls (compare_output old new (Some names)))
          ++ (EvPrint <$> print_anomalies (baseline ++ diff)
                            (show_debug args) (colorize args))
          ++ [EvPurge (max_cache_entries args); EvSave loc kept] |},
     Return ())
  ∧ ∃ entry, last kept = Some entry
      ∧ entry_snapshot entry = new ∧ timestamp entry = now env.
Proof.
  intros Hin Hloc Han Hlc Hle Hroot Hcl Hload names new old Hdiff kept
    baseline.
  split.
  - rewrite (run_analyze_mode _ _ _ _ _ Hin Hloc Han Hlc Hle Hroot Hload).
    unfold effective_commandlist. rewrite Hcl. cbn [negb].
    fold names new old.
    rewrite (diff_and_update_returns _ _ _ _ _ _ _ _ _ _ Hdiff).
    cbn [w_fs w_log purge add_entry location]. apply load_location in Hload.
    cbn in Hload. rewrite Hload. by rewrite <- !(assoc_L (++)).
  - eexists. split.
    { apply purge_keeps_last; [unfold out_of_range in Hin; lia|].
      unfold add_entry. cbn [entries]. apply last_snoc. }
    split; reflexivity.
Qed.

End run_more.


(** * The further properties at work on the small registry *)

Module fixtures_more.

Import fixtures.

(** A user who is not root and answers [n] or [y] at the prompt. *)
Definition env_user (answer : string) : Env :=
  {| HOME := Some "/root"; euid := 1000; stdin_line := Some answer;
     now := "t3" |}.

(** A user who is not root, with standard input at its end. *)
Definition env_eof : Env :=
  {| HOME := Some "/root"; euid := 1000; stdin_line := None; now := "t3" |}.

(** An environment without [$HOME]. *)
Definition env_no_home : Env :=
  {| HOME := None; euid := 0; stdin_line := None; now := "t3" |}.

Definition args_none : Args := {|
  analyze := false; compare_cache := None;
  list_commands := false; list_cache := false; show_debug := false;
  commandlist := None; force := false; colorize := false;
  cache_location := None; max_cache_entries := 16
|}.

Definition args_list_cache : Args := {|
  analyze := false; compare_cache := None;
  list_commands := false; list_cache := true; show_debug := false;
  commandlist := None; force := false; colorize := false;
  cache_location := None; max_cache_entries := 16
|}.

Definition args_list_commands : Args := {|
  analyze := false; compare_cache := None;
  list_commands := true; list_cache := false; show_debug := false;
  commandlist := None; force := false; colorize := false;
  cache_location := None; max_cache_entries := 16
|}.

(** Only the two well-behaved probes, for a full analysis that returns. *)
Definition COMMANDS_ok : list (Command (list string)) := [users; mounts].

Definition COMMAND_CACHE_ok : gmap string (Command (list string)) :=
  list_to_map ((λ c, (name c, c)) <$> COMMANDS_ok).

Definition run_env (e : Env) (args : Args) (fs : gmap string file) :=
  run COMMAND_CACHE cmd_str COMMANDS local_run e "/tmp/x" args (start fs).

Definition run_ok (args : Args) (fs : gmap string file) :=
  run COMMAND_CACHE_ok cmd_str COMMANDS_ok local_run env "/tmp/x" args
    (start fs).

End fixtures_more.

Section worked_runs_more.

Import fixtures fixtures_more.

Local Abbreviation compare_fix := (compare_output COMMAND_CACHE cmd_str).




Lemma compare_output_anomaly_origin_witness :
  outcome (compare_fix (Some [("foo", "x")])
             [("foo", "x"); ("users", "alice")] None)
  = Return [W (unknown_command_msg "foo"); (CHANGE, "user alice added")]
  ∧ W (unknown_command_msg "foo")
    ∈ [W (unknown_command_msg "foo"); (CHANGE, "user alice added")].
Proof.
  assert (outcome (compare_fix (Some [("foo", "x")])
                     [("foo", "x"); ("users", "alice")] None)
          = Return [W (unknown_command_msg "foo");
                    (CHANGE, "user alice added")]) as Hret
    by (by vm_compute).
  split; [exact Hret|].
  apply (proj2 (compare_output_anomaly_origin COMMAND_CACHE cmd_str
                  _ _ _ _ (W (unknown_command_msg "foo")) Hret)).
  exists "foo". split; [left|]. left. split; [by vm_compute|reflexivity].
Defined.

Lemma compare_output_covering_filter_witness :
  (∀ t, t ∈ merge_keys_to_list (old_or_empty None) [("users", "alice")]
        → t ∈ ["users"; "mounts"])
  ∧ compare_fix None [("users", "alice")] (Some ["users"; "mounts"])
    = compare_fix None [("users", "alice")] None.
Proof.
  assert (∀ t, t ∈ merge_keys_to_list (old_or_empty None) [("users", "alice")]
               → t ∈ ["users"; "mounts"]) as Hcover.
  { intros t Ht. vm_compute in Ht.
    apply list_elem_of_singleton in Ht as ->. left. }
  split; [exact Hcover|].
  exact (compare_output_covering_filter COMMAND_CACHE cmd_str None
           [("users", "alice")] ["users"; "mounts"] Hcover).
Defined.

Lemma print_anomalies_leading_warnings_witness :
  (∀ a : anomaly, a ∈ [(WARNING, "w0")] → a.1 = WARNING)
  ∧ drop 1 (print_anomalies
              ([(WARNING, "w0")] ++ [(CHANGE, "c1"); (WARNING, "w1")])
              false false)
    = ["! w0"; "! w1"; "+ c1"].
Proof.
  assert (∀ a : anomaly, a ∈ [(WARNING, "w0")] → a.1 = WARNING) as Hws.
  { by intros a ->%list_elem_of_singleton. }
  split; [exact Hws|].
  etrans;
    [exact (print_anomalies_leading_warnings [(WARNING, "w0")]
              [(CHANGE, "c1"); (WARNING, "w1")] false false Hws)
    |by vm_compute].
Defined.

Lemma print_anomalies_interleaving_witness :
  (∀ k, of_kind k [(CHANGE, "c"); (WARNING, "w"); (DEBUG, "d")]
        = of_kind k [(DEBUG, "d"); (WARNING, "w"); (CHANGE, "c")])
  ∧ print_anomalies [(CHANGE, "c"); (WARNING, "w"); (DEBUG, "d")] true false
    = print_anomalies [(DEBUG, "d"); (WARNING, "w"); (CHANGE, "c")] true false.
Proof.
  assert (∀ k, of_kind k [(CHANGE, "c"); (WARNING, "w"); (DEBUG, "d")]
               = of_kind k [(DEBUG, "d"); (WARNING, "w"); (CHANGE, "c")])
    as Hk.
  { intros k. by destruct k. }
  split; [exact Hk|].
  exact (proj1 (print_anomalies_interleaving _ _ true false Hk)).
Defined.

Lemma args_in_range_16 args :
  max_cache_entries args = 16%Z → ¬ out_of_range args.
Proof. unfold out_of_range. intros ->. lia. Qed.

Lemma args_in_range_2 args :
  max_cache_entries args = 2%Z → ¬ out_of_range args.
Proof. unfold out_of_range. intros ->. lia. Qed.

Lemma run_raise_leaves_store_witness :
  (run_fix (args_compare 3 2 2) fs).2 = Raise (KeyError "mounts")
  ∧ w_fs (run_fix (args_compare 3 2 2) fs).1 = fs.
Proof.
  assert ((run_fix (args_compare 3 2 2) fs).2 = Raise (KeyError "mounts"))
    as Hraise by (by vm_compute).
  split; [exact Hraise|].
  exact (run_raise_leaves_store COMMAND_CACHE cmd_str COMMANDS local_run env
           "/tmp/x" (args_compare 3 2 2) (start fs) _ Hraise).
Defined.

Lemma run_no_action_witness :
  resolve_cache_location env args_none ".dawgmon.db" = Return loc
  ∧ run_fix args_none fs
    = ({| w_fs := fs; w_log := [EvPrint "select an action -A/C/E/L"] |},
       Return ()).
Proof.
  assert (resolve_cache_location env args_none ".dawgmon.db" = Return loc)
    as Hloc by (by vm_compute).
  split; [exact Hloc|].
  exact (run_no_action COMMAND_CACHE cmd_str COMMANDS local_run env "/tmp/x"
           args_none (start fs) loc ltac:(by apply args_in_range_16) Hloc
           eq_refl eq_refl eq_refl eq_refl).
Defined.

Lemma run_home_unset_witness :
  HOME env_no_home = None
  ∧ run_env env_no_home args_list_commands fs
    = (start fs,
       Raise (TypeError
                "expected str, bytes or os.PathLike object, not NoneType")).
Proof.
  split; [reflexivity|].
  exact (run_home_unset COMMAND_CACHE cmd_str COMMANDS local_run env_no_home
           "/tmp/x" args_list_commands (start fs)
           ltac:(by apply args_in_range_16) eq_refl eq_refl).
Defined.

Lemma run_prompt_declined_witness :
  euid (env_user "n") ≠ 0%Z
  ∧ run_env (env_user "n") (args_analyze None 16) fs
    = ({| w_fs := fs;
          w_log :=
            [EvPrint "It's strongly recommended to run an analysis as root.";
             EvInput "Continue anyway with the analysis y/n? "] |},
       Return ()).
Proof.
  assert (euid (env_user "n") ≠ 0%Z) as Heuid by done.
  split; [exact Heuid|].
  exact (run_prompt_declined COMMAND_CACHE cmd_str COMMANDS local_run
           (env_user "n") "/tmp/x" (args_analyze None 16) (start fs) loc "n"
           ltac:(by apply args_in_range_16) eq_refl eq_refl eq_refl Heuid
           eq_refl ltac:(discriminate) ltac:(discriminate)).
Defined.

Lemma run_prompt_eof_witness :
  stdin_line env_eof = None
  ∧ run_env env_eof (args_analyze None 16) fs
    = ({| w_fs := fs;
          w_log :=
            [EvPrint "It's strongly recommended to run an analysis as root.";
             EvInput "Continue anyway with the analysis y/n? "] |},
       Raise EOFError).
Proof.
  split; [reflexivity|].
  exact (run_prompt_eof COMMAND_CACHE cmd_str COMMANDS local_run
           env_eof "/tmp/x" (args_analyze None 16) (start fs) loc
           ltac:(by apply args_in_range_16) eq_refl eq_refl eq_refl
           ltac:(done) eq_refl).
Defined.

Lemma run_prompt_accepted_witness :
  (stdin_line (env_user "Y") = Some "y"
   ∨ stdin_line (env_user "Y") = Some "Y")
  ∧ run_env (env_user "Y") (args_analyze (Some ["users"]) 16) fs
    = run COMMAND_CACHE cmd_str COMMANDS local_run (env_user "Y") "/tmp/x"
        (with_force (args_analyze (Some ["users"]) 16))
        {| w_fs := fs;
           w_log :=
             [EvPrint "It's strongly recommended to run an analysis as root.";
              EvInput "Continue anyway with the analysis y/n? "] |}.
Proof.
  assert (stdin_line (env_user "Y") = Some "y"
          ∨ stdin_line (env_user "Y") = Some "Y")
    as Hanswer by (by right).
  split; [exact Hanswer|].
  exact (run_prompt_accepted COMMAND_CACHE cmd_str COMMANDS local_run
           (env_user "Y") "/tmp/x" (args_analyze (Some ["users"]) 16)
           (start fs) loc ltac:(by apply args_in_range_16) eq_refl eq_refl
           eq_refl ltac:(done) Hanswer).
Defined.

Lemma run_list_cache_witness :
  load fs (new_cache loc) = Return loaded
  ∧ run_fix args_list_cache fs
    = ({| w_fs := fs;
          w_log := [EvLoad loc; EvPrint ("  ID" +:+ TAB +:+ "TIMESTAMP");
                    EvPrint ("   1" +:+ TAB +:+ "t0");
                    EvPrint ("   2" +:+ TAB +:+ "t1");
                    EvPrint ("   3" +:+ TAB +:+ "t2")] |},
       Return ()).
Proof.
  assert (load fs (new_cache loc) = Return loaded) as Hload
    by (by vm_compute).
  split; [exact Hload|].
  etrans;
    [exact (run_list_cache COMMAND_CACHE cmd_str COMMANDS local_run env
              "/tmp/x" args_list_cache (start fs) loc loaded
              ltac:(by apply args_in_range_16) eq_refl eq_refl eq_refl Hload)
    |by vm_compute].
Defined.

Lemma run_list_commands_witness :
  load fs (new_cache loc) = Return loaded
  ∧ ∃ cmd_list,
      run_fix args_list_commands fs
      = ({| w_fs := fs; w_log := [EvLoad loc] ++ (EvPrint <$> cmd_list) |},
         Return ())
      ∧ Sorted string_le cmd_list
      ∧ ("users" ∈ cmd_list).
Proof.
  assert (load fs (new_cache loc) = Return loaded) as Hload
    by (by vm_compute).
  split; [exact Hload|].
  destruct (run_list_commands COMMAND_CACHE cmd_str COMMANDS local_run env
              "/tmp/x" args_list_commands (start fs) loc loaded
              ltac:(by apply args_in_range_16) eq_refl eq_refl eq_refl eq_refl
              Hload) as (cmd_list & Hrun & Hsorted & _ & Hnames).
  exists cmd_list. split_and!; [exact Hrun|exact Hsorted|].
  apply Hnames. exists users. by vm_compute.
Defined.

Lemma run_partial_analysis_witness :
  outcome (compare_output COMMAND_CACHE cmd_str (get_last_entry loaded)
             (local_run "/tmp/x" ["users"]) (Some ["users"]))
  = Return [(CHANGE, "user alice added"); (CHANGE, "user bob added")]
  ∧ w_fs (run_fix (args_analyze (Some ["users"]) 2) fs).1 !! loc
    = Some (Stored [entry2; entry3])
  ∧ (run_fix (args_analyze (Some ["users"]) 2) fs).2 = Return ().
Proof.
  assert (outcome (compare_output COMMAND_CACHE cmd_str (get_last_entry loaded)
                     (local_run "/tmp/x" ["users"]) (Some ["users"]))
          = Return [(CHANGE, "user alice added"); (CHANGE, "user bob added")])
    as Hdiff by (by vm_compute).
  assert (load fs (new_cache loc) = Return loaded) as Hload
    by (by vm_compute).
  split; [exact Hdiff|].
  pose proof (run_partial_analysis COMMAND_CACHE cmd_str COMMANDS local_run
                env "/tmp/x" (args_analyze (Some ["users"]) 2) (start fs)
                loc loaded ["users"] _
                ltac:(by apply args_in_range_2) eq_refl eq_refl eq_refl eq_refl
                (or_intror eq_refl) eq_refl ltac:(discriminate) Hload Hdiff)
    as H.
  cbv zeta in H. destruct H as (Hrun & _ & _).
  unfold run_fix. rewrite Hrun. by vm_compute.
Defined.

Lemma run_full_analysis_witness :
  outcome (compare_output COMMAND_CACHE_ok cmd_str (get_last_entry loaded)
             (local_run "/tmp/x" (name <$> COMMANDS_ok))
             (Some (name <$> COMMANDS_ok)))
  = Return [(CHANGE, "user alice added"); (CHANGE, "user bob added");
            (DEBUG, "1 -> 2")]
  ∧ (run_ok (args_analyze None 2) fs).2 = Return ()
  ∧ ∃ kept, w_fs (run_ok (args_analyze None 2) fs).1 !! loc
            = Some (Stored kept)
      ∧ entry_snapshot <$> last kept
        = Some (local_run "/tmp/x" (name <$> COMMANDS_ok)).
Proof.
  assert (outcome (compare_output COMMAND_CACHE_ok cmd_str
                     (get_last_entry loaded)
                     (local_run "/tmp/x" (name <$> COMMANDS_ok))
                     (Some (name <$> COMMANDS_ok)))
          = Return [(CHANGE, "user alice added"); (CHANGE, "user bob added");
                    (DEBUG, "1 -> 2")]) as Hdiff by (by vm_compute).
  assert (load fs (new_cache loc) = Return loaded) as Hload
    by (by vm_compute).
  split; [exact Hdiff|].
  pose proof (run_full_analysis COMMAND_CACHE_ok cmd_str COMMANDS_ok local_run
                env "/tmp/x" (args_analyze None 2) (start fs)
                loc loaded _
                ltac:(by apply args_in_range_2) eq_refl eq_refl eq_refl eq_refl
                (or_intror eq_refl) eq_refl Hload Hdiff) as H.
  cbv zeta in H. destruct H as (Hrun & entry & Hlast & Hsnap & _).
  unfold run_ok. rewrite Hrun. split; [reflexivity|].
  eexists. split; [apply lookup_insert_eq|].
  rewrite Hlast. cbn [fmap option_fmap option_map]. by rewrite Hsnap.
Defined.

End worked_runs_more.


(** * [compare_output] with probes that raise *)

(** [parse] and [compare] are Python methods and may raise instead of
    returning. Here a probe call returns or raises, and [compare_output] is
    embedded once more over such probes; with probes that always return it
    is the [compare_output] above. *)
Module raising.

Record Command (StructuredT : Type) := {
  name : string;
  parse : string → result StructuredT;
  compare : StructuredT → StructuredT → result pyobj
}.
Arguments name {StructuredT} _.
Arguments parse {StructuredT} _ _.
Arguments compare {StructuredT} _ _ _.

Section diff_engine.

Context {StructuredT : Type}.

Variable COMMAND_CACHE : gmap string (Command StructuredT).
Variable cmd_str : Command StructuredT → string.

Notation "'let!' x ':=' m 'in' k" := (tr_bind m (λ x, k))
  (at level 10, x name, m at level 100, k at level 200, only parsing).

(** [cmd.parse(raw)] and [cmd.compare(a, b)]: the call is logged, then it
    returns or raises. *)
Definition do_parse (task_name : string) (cmd : Command StructuredT)
    (raw : string) : @Tr StructuredT StructuredT :=
  ([CallParse task_name raw], parse cmd raw).

Definition do_compare (task_name : string) (cmd : Command StructuredT)
    (a b : StructuredT) : @Tr StructuredT pyobj :=
  ([CallCompare task_name a b], compare cmd a b).

Definition compare_task (old new : snapshot)
    (commandlist : option (list string))
    (anomalies : list anomaly) (task_name : string) : @Tr StructuredT (list anomaly) :=
  match COMMAND_CACHE !! task_name with
  | None =>
      (* if not cmd: anomalies.append(W(...)); continue *)
      tr_ret (anomalies ++ [W (unknown_command_msg task_name)])
  | Some cmd =>
      if commandlist_truthy commandlist
         && bool_decide (task_name ∉ commandlist_items commandlist)
      then tr_ret anomalies (* continue *)
      else
        let old_data := if dict_in task_name old
                        then default "" (dict_get old task_name) else "" in
        let! old_data := do_parse task_name cmd old_data in
        let! new_raw := tr_lift (dict_getitem new task_name) in
        let! new_data := do_parse task_name cmd new_raw in
        let! ret := do_compare task_name cmd old_data new_data in
        match ret with
        | PyOther _ =>
            (* if type(ret) != list: raise Exception(...) *)
            tr_raise (Exception ("unexpected return value type for "
                                   +:+ cmd_str cmd))
        | PyList [] =>
            (* if ret and len(ret) > 0 fails *)
            tr_ret anomalies
        | PyList items =>
            (* anomalies = anomalies + ret *)
            tr_ret (anomalies ++ items)
        end
  end.

Fixpoint compare_loop (old new : snapshot)
    (commandlist : option (list string))
    (tasks : list string) (anomalies : list anomaly) : @Tr StructuredT (list anomaly) :=
  match tasks with
  | [] => tr_ret anomalies
  | task_name :: tasks' =>
      let! anomalies' := compare_task old new commandlist anomalies task_name in
      compare_loop old new commandlist tasks' anomalies'
  end.

Definition compare_output (old : option snapshot) (new : snapshot)
    (commandlist : option (list string)) : @Tr StructuredT (list anomaly) :=
  let anomalies := [] in
  let old := old_or_empty old in
  let tasks := merge_keys_to_list old new in
  compare_loop old new commandlist tasks anomalies.

End diff_engine.

(** A probe that always returns, as a probe that may raise. *)
Definition returning {StructuredT} (cmd : commands.Command StructuredT)
    : Command StructuredT :=
  {| name := commands.name cmd;
     parse := λ raw, Return (commands.parse cmd raw);
     compare := λ a b, Return (commands.compare cmd a b) |}.

End raising.

Section compare_output_raising.

Context {StructuredT : Type}.
Context (COMMAND_CACHE : gmap string (raising.Command StructuredT)).
Context (cmd_str : raising.Command StructuredT → string).

Local Abbreviation compare_task_r := (raising.compare_task COMMAND_CACHE cmd_str).
Local Abbreviation compare_loop_r := (raising.compare_loop COMMAND_CACHE cmd_str).
Local Abbreviation compare_output_r :=
  (raising.compare_output COMMAND_CACHE cmd_str).

(** Why the body of the loop raises [e] for a task. *)
Definition task_raises (old new : snapshot) (cl : option (list string))
    (t : string) (e : exn) : Prop :=
  ∃ cmd,
    COMMAND_CACHE !! t = Some cmd
    ∧ excluded cl t = false
    ∧ (raising.parse cmd (old_raw old t) = Raise e
       ∨ ∃ old_data,
           raising.parse cmd (old_raw old t) = Return old_data
           ∧ ((dict_get new t = None ∧ e = KeyError t)
              ∨ ∃ new_raw,
                  dict_get new t = Some new_raw
                  ∧ (raising.parse cmd new_raw = Raise e
                     ∨ ∃ new_data,
                         raising.parse cmd new_raw = Return new_data
                         ∧ (raising.compare cmd old_data new_data = Raise e
                            ∨ ∃ ty,
                                raising.compare cmd old_data new_data
                                = Return (PyOther ty)
                                ∧ e = Exception
                                        ("unexpected return value type for "
                                           +:+ cmd_str cmd))))).

Lemma compare_task_r_raise_inv old new cl acc t e :
  outcome (compare_task_r old new cl acc t) = Raise e →
  task_raises old new cl t e.
Proof.
  unfold raising.compare_task, task_raises.
  destruct (COMMAND_CACHE !! t) as [cmd|]; [|done].
  fold (excluded cl t). destruct (excluded cl t); [done|].
  rewrite old_raw_get. intros Hraise. exists cmd. split_and!; [done..|].
  revert Hraise. unfold raising.do_parse, raising.do_compare, dict_getitem.
  destruct (raising.parse cmd (old_raw old t)) as [old_data|e1] eqn:Hold;
    cbn [tr_bind outcome snd]; [|intros [= <-]; by left].
  intros Hraise. right. exists old_data. split; [done|].
  destruct (dict_get new t) as [new_raw|];
    cbn [tr_lift tr_bind outcome snd app] in Hraise |- *;
    [|simplify_eq; by left].
  right. exists new_raw. split; [done|].
  destruct (raising.parse cmd new_raw) as [new_data|e2] eqn:Hnew;
    cbn [tr_bind outcome snd app] in Hraise; [|simplify_eq; by left].
  right. exists new_data. split; [done|].
  destruct (raising.compare cmd old_data new_data) as [[[|i items]|ty]|e3]
    eqn:Hret; cbn [tr_bind tr_ret tr_raise outcome snd app] in Hraise;
    simplify_eq; [right; by exists ty|by left].
Qed.

Lemma compare_loop_r_raise_inv old new cl tasks acc e :
  outcome (compare_loop_r old new cl tasks acc) = Raise e →
  ∃ t acc', t ∈ tasks ∧ outcome (compare_task_r old new cl acc' t) = Raise e.
Proof.
  revert acc. induction tasks as [|t tasks IH]; intros acc; [done|].
  cbn [raising.compare_loop].
  destruct (compare_task_r old new cl acc t) as [log [acc'|e']] eqn:Htask;
    cbn [tr_bind].
  - destruct (compare_loop_r old new cl tasks acc') as [log' r] eqn:Hloop.
    cbn [outcome snd]. intros ->.
    destruct (IH acc') as (t' & acc'' & Ht' & Hraise).
    { by rewrite Hloop. }
    exists t', acc''. split; [by right|done].
  - cbn [outcome snd]. intros [= <-]. exists t, acc. split; [left|].
    by rewrite Htask.
Qed.

(** X1: Every exception that leaves [compare_output] comes from a task that
    is registered and passes the filter, and is one of: an exception raised
    by the probe's [parse] on the old or on the new value, the [KeyError] of
    a key that [old] has and [new] lacks, an exception raised by the probe's
    [compare], or the contract violation of a [compare] that returned
    something else than a list. *)
Theorem compare_output_raises_only (old : option snapshot) new cl e :
  outcome (compare_output_r old new cl) = Raise e →
  ∃ t,
    t ∈ merge_keys_to_list (old_or_empty old) new
    ∧ task_raises (old_or_empty old) new cl t e
    ∧ (dict_get new t = None → t ∈ keys (old_or_empty old) ∧ t ∉ keys new).
Proof.
  unfold raising.compare_output. intros Hraise.
  apply compare_loop_r_raise_inv in Hraise as (t & acc & Ht & Hraise).
  apply compare_task_r_raise_inv in Hraise.
  exists t. split_and!; [done..|].
  intros Hnone. apply dict_get_None in Hnone.
  split; [|done]. apply merge_keys_elem in Ht as [?|?]; done.
Qed.

(** With probes that always return, this is the [compare_output] of the
    first part. *)
Lemma compare_output_returning
    (registry : gmap string (commands.Command StructuredT))
    (str : commands.Command StructuredT → string) old new cl :
  (∀ cmd, cmd_str (raising.returning cmd) = str cmd) →
  COMMAND_CACHE = raising.returning <$> registry →
  compare_output_r old new cl = compare_output registry str old new cl.
Proof.
  intros Hstr ->. unfold raising.compare_output, compare_output.
  generalize (@nil anomaly) as acc.
  induction (merge_keys_to_list (old_or_empty old) new) as [|t tasks IH];
    intros acc; [done|].
  cbn [raising.compare_loop compare_loop].
  assert (raising.compare_task (raising.returning <$> registry) cmd_str
            (old_or_empty old) new cl acc t
          = compare_task registry str (old_or_empty old) new cl acc t) as ->.
  { unfold raising.compare_task, compare_task. rewrite lookup_fmap.
    destruct (registry !! t) as [cmd|]; [|done].
    cbn [fmap option_fmap option_map]. by rewrite Hstr. }
  apply tr_bind_ext. intros acc'. apply IH.
Qed.

End compare_output_raising.

Module fixtures_raising.

(** A probe whose [parse] accepts only the empty capture. *)
Definition picky : raising.Command (list string) := {|
  raising.name := "picky";
  raising.parse := λ raw,
    if decide (raw = "") then Return [] else Raise (Exception "malformed");
  raising.compare := λ _ _, Return (PyList [])
|}.

Definition COMMAND_CACHE : gmap string (raising.Command (list string)) :=
  {[ "picky" := picky ]}.

Definition cmd_str (c : raising.Command (list string)) : string :=
  "<" +:+ raising.name c +:+ ">".

End fixtures_raising.

Lemma compare_output_raises_only_witness :
  outcome (raising.compare_output fixtures_raising.COMMAND_CACHE
             fixtures_raising.cmd_str None [("picky", "x")] None)
  = Raise (Exception "malformed")
  ∧ ∃ t, t ∈ merge_keys_to_list [] [("picky", "x")]
      ∧ task_raises fixtures_raising.COMMAND_CACHE fixtures_raising.cmd_str
          [] [("picky", "x")] None t (Exception "malformed").
Proof.
  assert (outcome (raising.compare_output fixtures_raising.COMMAND_CACHE
                     fixtures_raising.cmd_str None [("picky", "x")] None)
          = Raise (Exception "malformed")) as Hraise by (by vm_compute).
  split; [exact Hraise|].
  destruct (compare_output_raises_only fixtures_raising.COMMAND_CACHE
              fixtures_raising.cmd_str None [("picky", "x")] None _ Hraise)
    as (t & Ht & Hwhy & _).
  exists t. by split.
Defined.

(** C10, the claim as stated fails: [-C 3 2] finds both entries and reaches
    the diff stage, where the probes are called; entry 3 has the key
    [mounts] and entry 2 lacks it, so [compare_output] raises [KeyError] and
    the run ends there: it neither purges nor saves, and the store is as it
    was. *)
Lemma run_diff_raises_without_purge :
  get_entry fixtures.loaded 3 = Some (entry_snapshot fixtures.entry3)
  ∧ get_entry fixtures.loaded 2 = Some (entry_snapshot fixtures.entry2)
  ∧ fixtures.run_fix (fixtures.args_compare 3 2 2) fixtures.fs
    = ({| w_fs := fixtures.fs;
          w_log :=
            [EvLoad fixtures.loc;
             EvProbe (CallParse "users" "carol");
             EvProbe (CallParse "users" ("alice" +:+ fixtures.NL +:+ "bob"));
             EvProbe (CallCompare "users" ["carol"] ["alice"; "bob"]);
             EvProbe (CallParse "mounts" "/")] |},
       Raise (KeyError "mounts"))
  ∧ ∀ ev,
      ev ∈ w_log (fixtures.run_fix (fixtures.args_compare 3 2 2)
                    fixtures.fs).1 →
      (∀ m, ev ≠ EvPurge m) ∧ (∀ l records, ev ≠ EvSave l records).
Proof.
  assert (fixtures.run_fix (fixtures.args_compare 3 2 2) fixtures.fs
          = ({| w_fs := fixtures.fs;
                w_log :=
                  [EvLoad fixtures.loc;
                   EvProbe (CallParse "users" "carol");
                   EvProbe (CallParse "users"
                              ("alice" +:+ fixtures.NL +:+ "bob"));
                   EvProbe (CallCompare "users" ["carol"] ["alice"; "bob"]);
                   EvProbe (CallParse "mounts" "/")] |},
             Raise (KeyError "mounts"))) as Hrun by (by vm_compute).
  split_and!; [by vm_compute|by vm_compute|exact Hrun|].
  rewrite Hrun. cbn [fst w_log]. intros ev Hev.
  repeat (apply elem_of_cons in Hev as [->|Hev]; [by split|]).
  by apply elem_of_nil in Hev.
Qed.
